(** * github-pera1-workers: the repository pipeline of [src/github.ts]

    A shallow embedding of [processGitHubRepository] and its helpers
    ([fetchZip], [createTreeDisplay], [isBinaryContent], [shouldSkipFile],
    [shouldIncludeFile]) and of [mapGitHubErrorToStatus] from [src/app.ts],
    followed by the properties the specification states about them.

    Conventions of the embedding.
    - A JavaScript string is the list of its UTF-16 code units ([jsstring]).
    - [undefined] is [None]; truthiness of a string is non-emptiness.
    - Sizes and counters are naturals of [N]; where the source divides or
      compares them as IEEE doubles ([isBinaryContent]) the model uses the
      kernel's binary64 floats, and where it prints a quotient by 1024 with
      [toFixed] the model uses the rational, which is the double's exact value
      (an integer below 2^53 divided by a power of two is representable).
    - What the platform provides ([new URL], [fetch], [JSZip.loadAsync]) is a
      [Platform] record the pipeline is parameterised by.
    - Effects are explicit: the requests sent and the archive members whose
      content was read are returned next to the result. *)

From Stdlib Require Import List NArith ZArith QArith Qabs Lia Bool String Ascii.
From Stdlib Require Import Floats Uint63 DecimalString Sorted.
Import ListNotations.
Open Scope N_scope.
Open Scope list_scope.

Set Warnings "-inexact-float".

(* ================================================================== *)
(** ** JavaScript strings *)

Module JS.

Definition code_unit := N.
Definition jsstring := list code_unit.

(** A literal with ASCII characters only. *)
Definition lit (s : string) : jsstring :=
  map N_of_ascii (list_ascii_of_string s).

(** [a === b] on strings. *)
Fixpoint jsstring_eqb (a b : jsstring) : bool :=
  match a, b with
  | [], [] => true
  | x :: a', y :: b' => (x =? y) && jsstring_eqb a' b'
  | _, _ => false
  end.

(** Truthiness of a string value. *)
Definition truthy (s : jsstring) : bool :=
  match s with [] => false | _ => true end.

(** Truthiness of a value that is a string or [undefined]. *)
Definition truthy_opt (s : option jsstring) : bool :=
  match s with Some s => truthy s | None => false end.

(** [a || b] on strings-or-undefined. *)
Definition or_else (a : option jsstring) (b : option jsstring) : option jsstring :=
  if truthy_opt a then a else b.

Fixpoint startsWith (s prefix : jsstring) {struct prefix} : bool :=
  match prefix, s with
  | [], _ => true
  | p :: prefix', c :: s' => (c =? p) && startsWith s' prefix'
  | _ :: _, [] => false
  end.

Definition endsWith (s suffix : jsstring) : bool :=
  startsWith (rev s) (rev suffix).

Fixpoint includes (s sub : jsstring) : bool :=
  startsWith s sub ||
  match s with
  | [] => false
  | _ :: s' => includes s' sub
  end.

(** [s.slice(n)] and [s.substring(0, n)] for a natural [n]. *)
Definition slice_from (n : nat) (s : jsstring) : jsstring := skipn n s.
Definition substring0 (s : jsstring) (n : nat) : jsstring := firstn n s.

(** [s.charCodeAt(i)]; [None] stands for NaN. *)
Definition charCodeAt (s : jsstring) (i : nat) : option code_unit := nth_error s i.

(** [s.split(sep)] for a separator of one code unit: never the empty array. *)
Fixpoint split (sep : code_unit) (s : jsstring) : list jsstring :=
  match s with
  | [] => [[]]
  | c :: s' =>
      if c =? sep then [] :: split sep s'
      else match split sep s' with
           | [] => [[c]]
           | w :: ws => (c :: w) :: ws
           end
  end.

Fixpoint join (sep : jsstring) (parts : list jsstring) : jsstring :=
  match parts with
  | [] => []
  | [p] => p
  | p :: ps => p ++ sep ++ join sep ps
  end.

(** [arr.pop() || ""] *)
Definition pop_or_empty (parts : list jsstring) : jsstring := last parts [].

(** WhiteSpace and LineTerminator code units of ECMAScript, as [trim] uses them. *)
Definition isWhiteSpace (c : code_unit) : bool :=
  existsb (N.eqb c)
    [9; 10; 11; 12; 13; 32; 160; 5760; 8232; 8233; 8239; 8287; 12288; 65279]
  || ((8192 <=? c) && (c <=? 8202)).

Fixpoint trimStart (s : jsstring) : jsstring :=
  match s with
  | c :: s' => if isWhiteSpace c then trimStart s' else s
  | [] => []
  end.

Definition trim (s : jsstring) : jsstring := rev (trimStart (rev (trimStart s))).

(** [s.toLowerCase()] on the ASCII letters; code units outside ASCII are
    kept as they are. ECMAScript also maps letters outside ASCII. Of those
    only U+0130 and U+212A produce an ASCII letter (an i followed by U+0307,
    and k), and neither can complete one of the ASCII literals that
    [shouldSkipFile] and [mapGitHubErrorToStatus] look for in a lowered
    string, so their answers are those of the source on every string; the
    extension filter of [shouldIncludeFile] is the source's on ASCII
    extensions. *)
Definition lower_unit (c : code_unit) : code_unit :=
  if (65 <=? c) && (c <=? 90) then c + 32 else c.

Definition toLowerCase (s : jsstring) : jsstring := map lower_unit s.

(** [s.replace(/^\/+/, "")] *)
Fixpoint stripLeadingSlashes (s : jsstring) : jsstring :=
  match s with
  | c :: s' => if c =? 47 then stripLeadingSlashes s' else s
  | [] => []
  end.

(** [new TextEncoder().encode(s).length]: the UTF-8 length of the string, a
    surrogate pair taking four bytes and a lone surrogate three (it is
    replaced by U+FFFD). *)
Definition isHighSurrogate (c : code_unit) : bool := (55296 <=? c) && (c <=? 56319).
Definition isLowSurrogate (c : code_unit) : bool := (56320 <=? c) && (c <=? 57343).

Fixpoint utf8_length (s : jsstring) : N :=
  match s with
  | [] => 0
  | c :: s' =>
      if c <? 128 then 1 + utf8_length s'
      else if c <? 2048 then 2 + utf8_length s'
      else if isHighSurrogate c then
        match s' with
        | d :: s'' => if isLowSurrogate d then 4 + utf8_length s'' else 3 + utf8_length s'
        | [] => 3
        end
      else 3 + utf8_length s'
  end.

(** Decimal digits of a natural, as template literals print an integer. *)
Definition of_N (n : N) : jsstring :=
  lit (NilZero.string_of_uint (N.to_uint n)).

(** [x.toFixed(2)] for the exact value [x] of the double: the integer [n]
    closest to [100 * x] (the larger one on a tie), printed with a point
    before its last two digits. *)
Definition round_half_up (x : Q) : Z :=
  (2 * Qnum x + Z.pos (Qden x)) / (2 * Z.pos (Qden x)).

Definition two_digits (n : N) : jsstring :=
  [48 + n / 10; 48 + n mod 10].

Definition toFixed2 (x : Q) : jsstring :=
  let neg := (Qnum x <? 0)%Z in
  let n := Z.to_N (round_half_up (Qmult (inject_Z 100) (Qabs x))) in
  (if neg then lit "-" else []) ++ of_N (n / 100) ++ lit "." ++ two_digits (n mod 100).

(** [n / 1024] on a natural [n]. *)
Definition div1024 (n : N) : Q := Qmake (Z.of_N n) 1024.

(** [s.repeat(n)] *)
Fixpoint repeat_str (s : jsstring) (n : nat) : jsstring :=
  match n with
  | O => []
  | S n' => s ++ repeat_str s n'
  end.

(** Comparison of two strings by code units, the default order of [sort]. *)
Fixpoint leb (a b : jsstring) : bool :=
  match a, b with
  | [], _ => true
  | _ :: _, [] => false
  | x :: a', y :: b' => (x <? y) || ((x =? y) && leb a' b')
  end.

Fixpoint insert_sorted (x : jsstring) (l : list jsstring) : list jsstring :=
  match l with
  | [] => [x]
  | y :: l' => if leb x y then x :: l else y :: insert_sorted x l'
  end.

(** [arr.sort()] on an array of distinct strings. *)
Definition sort (l : list jsstring) : list jsstring :=
  fold_right insert_sorted [] l.

(** A [Map] keyed by strings: insertion order, [set] on a present key
    replaces the value in place. *)
Definition Map (V : Type) := list (jsstring * V).

Fixpoint Map_get {V} (m : Map V) (k : jsstring) : option V :=
  match m with
  | [] => None
  | (k', v) :: m' => if jsstring_eqb k' k then Some v else Map_get m' k
  end.

Fixpoint Map_set {V} (m : Map V) (k : jsstring) (v : V) : Map V :=
  match m with
  | [] => [(k, v)]
  | (k', v') :: m' =>
      if jsstring_eqb k' k then (k', v) :: m' else (k', v') :: Map_set m' k v
  end.

(** A [Set] of strings: insertion order, no repeats. *)
Definition Set_add (s : list jsstring) (x : jsstring) : list jsstring :=
  if existsb (jsstring_eqb x) s then s else s ++ [x].

(** A double holding a natural that is exactly representable. *)
Definition Number_of_N (n : N) : float :=
  PrimFloat.of_uint63 (Uint63.of_Z (Z.of_N n)).

End JS.
Import JS.

(* ================================================================== *)
(** ** [isBinaryContent] *)

(** The test of the loop body:
    [charCode === 0 || (charCode < 32 && ![9, 10, 13].includes(charCode))];
    NaN fails both comparisons. *)
Definition isNonPrintable (charCode : option code_unit) : bool :=
  match charCode with
  | Some c => (c =? 0) || ((c <? 32) && negb (existsb (N.eqb c) [9; 10; 13]))
  | None => false
  end.

Definition sampleSizeOf (content : jsstring) : nat := Nat.min (List.length content) 1000.

(** The counter after the loop [for (let i = 0; i < sampleSize; i++)]. *)
Definition countNonPrintable (content : jsstring) (sampleSize : nat) : N :=
  fold_left
    (fun nonPrintable i =>
       if isNonPrintable (charCodeAt content i) then nonPrintable + 1 else nonPrintable)
    (seq 0 sampleSize) 0.

Definition isBinaryContent (content : jsstring) : bool :=
  let sampleSize := sampleSizeOf content in
  let nonPrintable := countNonPrintable content sampleSize in
  PrimFloat.ltb 0.05%float
    (PrimFloat.div (Number_of_N nonPrintable) (Number_of_N (N.of_nat sampleSize))).

(* ================================================================== *)
(** ** Errors, requests and the platform *)

(** The two classes of exception the sources throw:
    [new GitHubFetchError(status, statusText)] and [new Error(message)]. *)
Inductive JsError : Type :=
| GitHubFetchError (status : N) (statusText : jsstring)
| Error (message : jsstring).

(** [error.message] *)
Definition message (e : JsError) : jsstring :=
  match e with
  | GitHubFetchError status statusText =>
      lit "Failed to fetch repository: " ++ of_N status ++ lit " " ++ statusText
  | Error m => m
  end.

Record Request : Type := mkRequest {
  req_url : jsstring;
  req_headers : list (jsstring * jsstring)
}.

Record Response (B : Type) : Type := mkResponse {
  status : N;
  statusText : jsstring;
  body : B
}.
Arguments mkResponse {B}.
Arguments status {B}.
Arguments statusText {B}.
Arguments body {B}.

(** [resp.ok]: the status is in the range 200-299. *)
Definition ok {B} (resp : Response B) : bool :=
  (200 <=? status resp) && (status resp <=? 299).

(** A member of [jszip.files]: [fileObj.name], [fileObj.dir] and the string
    [fileObj.async("string")] resolves to. *)
Record JSZipObject : Type := mkZipObject {
  name : jsstring;
  dir : bool;
  async_string : jsstring
}.

(** What the runtime and the libraries provide.
    - [new_URL s] is [new URL(s)]: the [pathname] of the parsed URL, or the
      message of the [TypeError] it throws.
    - [fetch] answers a GET request with a response.
    - [JSZip_loadAsync] turns the body of a response into the members of the
      archive, in the order [Object.values(jszip.files)] lists them, or throws. *)
Record Platform : Type := mkPlatform {
  ArrayBuffer : Type;
  new_URL : jsstring -> jsstring + jsstring;
  fetch : Request -> Response ArrayBuffer;
  JSZip_loadAsync : ArrayBuffer -> JsError + list JSZipObject
}.

(** The [params] object of [processGitHubRepository]. *)
Record Params : Type := mkParams {
  param_url : jsstring;
  param_dir : option jsstring;
  param_ext : option jsstring;
  param_branch : option jsstring;
  param_file : option jsstring;
  param_mode : option jsstring
}.

(* ================================================================== *)
(** ** Constants *)

Definition MAX_DISPLAY_FILE_SIZE : N := 30 * 1024.
Definition MAX_FILE_SIZE : N := 500 * 1024.

Definition imageExtensions : list jsstring :=
  map lit [".png"; ".jpg"; ".jpeg"; ".gif"; ".bmp"; ".ico"; ".webp"; ".svg"]%string.

Definition binaryExtensions : list jsstring :=
  map lit [".zip"; ".tar"; ".gz"; ".rar"; ".7z"; ".exe"; ".dll"; ".so"; ".dylib";
           ".pdf"; ".doc"; ".docx"; ".xls"; ".xlsx"; ".ppt"; ".pptx"; ".mp3";
           ".mp4"; ".avi"; ".mov"; ".wav"; ".bin"; ".dat"; ".db"; ".sqlite"]%string.

Definition defaultBranches : list jsstring := [lit "main"; lit "master"].

Definition has (set : list jsstring) (x : jsstring) : bool :=
  existsb (jsstring_eqb x) set.

(* ================================================================== *)
(** ** [shouldSkipFile] and [shouldIncludeFile] *)

(** [filename.match(/-lock\.|\.lock$/)] is not null. *)
Definition matchesLock (filename : jsstring) : bool :=
  includes filename (lit "-lock.") || endsWith filename (lit ".lock").

Definition shouldSkipFile (filename : jsstring) (size : N)
    (content : option jsstring) (hasTsConfig : bool) : bool :=
  let ext := pop_or_empty (split 46 (toLowerCase filename)) in
  if matchesLock filename then true
  else if has imageExtensions (lit "." ++ ext) || has binaryExtensions (lit "." ++ ext) then true
  else if hasTsConfig && (endsWith filename (lit ".js") || endsWith filename (lit ".mjs")) then true
  else if MAX_FILE_SIZE <? size then true
  else if match content with
          | Some c => truthy c && isBinaryContent c
          | None => false
          end then true
  else false.

Definition shouldIncludeFile (filename : jsstring) (targetDirs targetExts : list jsstring) : bool :=
  if (0 <? List.length targetDirs)%nat
     && negb (existsb
                (fun d =>
                   let normalizedDir := if endsWith d (lit "/") then d else d ++ lit "/" in
                   startsWith filename normalizedDir)
                targetDirs)
  then false
  else if (0 <? List.length targetExts)%nat
          && negb (has targetExts (toLowerCase (pop_or_empty (split 46 filename))))
  then false
  else true.

(* ================================================================== *)
(** ** The reference resolver (lines 36-127 of [github.ts]) *)

Record Resolved : Type := mkResolved {
  owner : jsstring;
  repo : jsstring;
  branch : jsstring;
  finalTargetDirs : list jsstring;
  targetExts : list jsstring;
  targetFile : option jsstring;
  isTreeMode : bool
}.

(** [p.endsWith("/") ? p : `${p}/`] *)
Definition withTrailingSlash (p : jsstring) : jsstring :=
  if endsWith p (lit "/") then p else p ++ lit "/".

(** Branch, directory and file embedded in the path after owner and repo:
    the [/tree/<branch>/<path>] and [/blob/<branch>/<file>] forms, then the
    fallback that scopes to a directory. *)
Definition pathEmbedded (pathSegments : list jsstring)
  : option jsstring * list jsstring * option jsstring :=
  let '(pathBranch, pathTargetDirs, pathTargetFile) :=
    if (2 <=? List.length pathSegments)%nat then
      let typeSegment := nth 0 pathSegments [] in
      if jsstring_eqb typeSegment (lit "tree") then
        let remainingPath := join (lit "/") (skipn 2 pathSegments) in
        (Some (nth 1 pathSegments []),
         if truthy remainingPath then [withTrailingSlash remainingPath] else [],
         None)
      else if jsstring_eqb typeSegment (lit "blob") && (3 <=? List.length pathSegments)%nat then
        let filePath := join (lit "/") (skipn 2 pathSegments) in
        (Some (nth 1 pathSegments []), [],
         if truthy filePath then Some filePath else None)
      else (None, [], None)
    else (None, [], None) in
  if negb (truthy_opt pathBranch) && negb (truthy_opt pathTargetFile)
     && (List.length pathTargetDirs =? 0)%nat && (0 <? List.length pathSegments)%nat
  then
    let scopePath := join (lit "/") pathSegments in
    (pathBranch,
     if truthy scopePath then [withTrailingSlash scopePath] else pathTargetDirs,
     pathTargetFile)
  else (pathBranch, pathTargetDirs, pathTargetFile).

(** [dir?.split(",").map(d => d.trim()).filter(d => d)] *)
Definition queryDirsOf (dir : option jsstring) : option (list jsstring) :=
  option_map (fun d => filter truthy (map trim (split 44 d))) dir.

(** [ext?.split(",").map(e => e.trim().toLowerCase()).filter(e => e)] *)
Definition queryExtsOf (ext : option jsstring) : option (list jsstring) :=
  option_map (fun e => filter truthy (map (fun e => toLowerCase (trim e)) (split 44 e))) ext.

Definition normalizeDir (baseDir : jsstring) (d : jsstring) : jsstring :=
  let trimmed := stripLeadingSlashes d in
  let withSlash := if endsWith trimmed (lit "/") then trimmed else trimmed ++ lit "/" in
  if negb (truthy baseDir) then withSlash
  else if startsWith withSlash baseDir then withSlash
  else baseDir ++ withSlash.

Definition resolveTargetFile (baseDir : jsstring) (queryFile pathTargetFile : option jsstring)
  : option jsstring :=
  match queryFile with
  | Some q =>
      if truthy q then
        let normalized := if startsWith q (lit "/") then slice_from 1 q else q in
        if truthy baseDir && negb (startsWith normalized baseDir)
        then Some (baseDir ++ normalized)
        else Some normalized
      else pathTargetFile
  | None => pathTargetFile
  end.

Definition resolve (P : Platform) (params : Params) : JsError + Resolved :=
  let url := param_url params in
  match new_URL P (if startsWith url (lit "http") then url else lit "https://" ++ url) with
  | inl msg => inl (Error (lit "Invalid URL: " ++ msg))
  | inr pathname =>
      let segments := filter truthy (split 47 pathname) in
      if (List.length segments <? 2)%nat
      then inl (Error (lit "Invalid GitHub repository URL format"))
      else
        let owner := nth 0 segments [] in
        let repo := nth 1 segments [] in
        let pathSegments := skipn 2 segments in
        let '(pathBranch, pathTargetDirs, pathTargetFile) := pathEmbedded pathSegments in
        let queryDirs := queryDirsOf (param_dir params) in
        let queryExts := queryExtsOf (param_ext params) in
        let isTreeMode :=
          match param_mode params with
          | Some m => jsstring_eqb m (lit "tree")
          | None => false
          end in
        let branch :=
          match or_else (or_else (param_branch params) pathBranch) (Some (lit "main")) with
          | Some b => b
          | None => lit "main"
          end in
        let baseDir := hd [] pathTargetDirs in
        let finalTargetDirs :=
          match queryDirs with
          | Some (q :: qs) => map (normalizeDir baseDir) (q :: qs)
          | _ => if (0 <? List.length pathTargetDirs)%nat then pathTargetDirs else []
          end in
        let targetExts := match queryExts with Some es => es | None => [] end in
        let targetFile := resolveTargetFile baseDir (param_file params) pathTargetFile in
        inr (mkResolved owner repo branch finalTargetDirs targetExts targetFile isTreeMode)
  end.

(* ================================================================== *)
(** ** The archive fetcher (lines 16-29 and 129-150) *)

Definition zipRequest (owner repo branch : jsstring) (token : option jsstring) : Request :=
  let zipUrl :=
    lit "https://codeload.github.com/" ++ owner ++ lit "/" ++ repo ++ lit "/zip/" ++ branch in
  let headers := [(lit "User-Agent", lit "Pera1-Bot")] in
  let headers :=
    match token with
    | Some t => if truthy t then headers ++ [(lit "Authorization", lit "Bearer " ++ t)] else headers
    | None => headers
    end in
  mkRequest zipUrl headers.

(** [fetchZip], with the request it sends. *)
Definition fetchZip (P : Platform) (owner repo branch : jsstring) (token : option jsstring)
  : Response (ArrayBuffer P) * list Request :=
  let req := zipRequest owner repo branch token in
  (fetch P req, [req]).

(** The loop [for (const defaultBranch of defaultBranches)]: the branch and
    response found, if any, and the requests sent. *)
Fixpoint tryDefaultBranches (P : Platform) (owner repo branch : jsstring)
    (token : option jsstring) (candidates : list jsstring)
  : option (jsstring * Response (ArrayBuffer P)) * list Request :=
  match candidates with
  | [] => (None, [])
  | defaultBranch :: rest =>
      if jsstring_eqb branch defaultBranch
      then tryDefaultBranches P owner repo branch token rest
      else
        let '(tempResp, sent) := fetchZip P owner repo defaultBranch token in
        if ok tempResp then (Some (defaultBranch, tempResp), sent)
        else
          let '(found, sent') := tryDefaultBranches P owner repo branch token rest in
          (found, sent ++ sent')
  end.

(** Lines 129-150: the effective branch and its response, or the
    [GitHubFetchError]; with every request sent, in order. *)
Definition fetchWithFallback (P : Platform) (owner repo branch : jsstring)
    (token : option jsstring)
  : (JsError + (jsstring * Response (ArrayBuffer P))) * list Request :=
  let '(zipResp, sent) := fetchZip P owner repo branch token in
  if negb (ok zipResp) then
    match tryDefaultBranches P owner repo branch token defaultBranches with
    | (Some found, sent') => (inr found, sent ++ sent')
    | (None, sent') =>
        (inl (GitHubFetchError (status zipResp) (statusText zipResp)), sent ++ sent')
    end
  else (inr (branch, zipResp), sent).

(* ================================================================== *)
(** ** The scan of the archive (lines 154-211) *)

(** A value of [fileTree]; [isTruncated] is absent on a placeholder. *)
Record FileInfo : Type := mkFileInfo {
  size : N;
  content : jsstring;
  isTruncated : option bool
}.

(** The variables the loop updates, and the names of the members whose
    content it has read. *)
Record ScanState : Type := mkScanState {
  fileTree : Map FileInfo;
  originalTotalSize : N;
  displayTotalSize : N;
  reads : list jsstring
}.

Definition initialScanState : ScanState := mkScanState [] 0 0 [].

Definition hasTsConfigOf (rootPrefix : jsstring) (files : list JSZipObject) : bool :=
  existsb
    (fun f => startsWith (name f) rootPrefix && endsWith (name f) (lit "tsconfig.json"))
    files.

(** [/readme\.md$/i.test(path)]: without the [u] flag a pattern character of
    ASCII matches only its two ASCII cases. *)
Definition isReadme (path : jsstring) : bool :=
  endsWith (toLowerCase path) (lit "readme.md").

(** The selection of lines 172-176; [true] when the loop goes on with the entry. *)
Definition selected (r : Resolved) (fileRelative : jsstring) : bool :=
  match targetFile r with
  | Some t =>
      if truthy t then jsstring_eqb fileRelative t
      else shouldIncludeFile fileRelative (finalTargetDirs r) (targetExts r)
  | None => shouldIncludeFile fileRelative (finalTargetDirs r) (targetExts r)
  end.

Definition truncationNote (size : N) : jsstring :=
  let remainingSize := div1024 (size - MAX_DISPLAY_FILE_SIZE) in
  [10; 10] ++ lit "This file is too large, truncated at 30KB. There is "
  ++ toFixed2 remainingSize ++ lit "KB remaining.".

(** One iteration of [for (const fileObj of Object.values(jszip.files))]. *)
Definition scanStep (r : Resolved) (rootPrefix : jsstring) (hasTsConfig : bool)
    (st : ScanState) (fileObj : JSZipObject) : ScanState :=
  if dir fileObj then st
  else if negb (startsWith (name fileObj) rootPrefix) then st
  else
    let fileRelative := slice_from (List.length rootPrefix) (name fileObj) in
    if negb (selected r fileRelative) then st
    else
      let isReadmeFile := isReadme fileRelative in
      if isTreeMode r && negb isReadmeFile then
        mkScanState (Map_set (fileTree st) fileRelative (mkFileInfo 0 [] None))
                    (originalTotalSize st) (displayTotalSize st) (reads st)
      else
        let content := async_string fileObj in
        let reads' := reads st ++ [name fileObj] in
        let size := utf8_length content in
        if shouldSkipFile fileRelative size (Some content) hasTsConfig then
          mkScanState (fileTree st) (originalTotalSize st) (displayTotalSize st) reads'
        else
          let '(isTruncated, processedContent, displaySize) :=
            if MAX_DISPLAY_FILE_SIZE <? size then
              (true,
               substring0 content (N.to_nat MAX_DISPLAY_FILE_SIZE) ++ truncationNote size,
               MAX_DISPLAY_FILE_SIZE)
            else (false, content, size) in
          mkScanState
            (Map_set (fileTree st) fileRelative (mkFileInfo size processedContent (Some isTruncated)))
            (originalTotalSize st + size)
            (displayTotalSize st + displaySize)
            reads'.

Definition scan (r : Resolved) (rootPrefix : jsstring) (files : list JSZipObject) : ScanState :=
  fold_left (scanStep r rootPrefix (hasTsConfigOf rootPrefix files)) files initialScanState.

(* ================================================================== *)
(** ** Rendering (lines 213-293) *)

Definition folderOpen : jsstring := [55357; 56514].
Definition folderClosed : jsstring := [55357; 56513].
Definition page : jsstring := [55357; 56516].
Definition memo : jsstring := [55357; 56541].
Definition arrow : jsstring := [8594].

(** The set [dirs]: every prefix of every path, by whole segments. *)
Definition prefixesOf (path : jsstring) : list jsstring :=
  let parts := split 47 path in
  map (fun i => join (lit "/") (firstn i parts)) (seq 1 (List.length parts)).

Definition collectDirs (fileTree : Map FileInfo) : list jsstring :=
  fold_left (fun dirs kv => fold_left Set_add (prefixesOf (fst kv)) dirs) fileTree [].

Definition treeLine (fileTree : Map FileInfo) (showSize : bool) (dirs : list jsstring)
    (d : jsstring) : jsstring :=
  let depth := Nat.sub (List.length (split 47 d)) 1 in
  let indent := repeat_str (lit "  ") depth in
  let name := pop_or_empty (split 47 d) in
  let isFile := negb (existsb (fun d' => startsWith d' (d ++ lit "/")) dirs) in
  if showSize && isFile then
    match Map_get fileTree d with
    | Some fileInfo =>
        let sizeKB := toFixed2 (div1024 (size fileInfo)) in
        match isTruncated fileInfo with
        | Some true =>
            indent ++ page ++ lit " " ++ name ++ lit " (" ++ sizeKB ++ lit " KB" ++ arrow
            ++ lit "30KB truncated)" ++ [10]
        | _ => indent ++ page ++ lit " " ++ name ++ lit " (" ++ sizeKB ++ lit " KB)" ++ [10]
        end
    | None => indent ++ page ++ lit " " ++ name ++ lit " (0.00 KB)" ++ [10]
    end
  else indent ++ (if isFile then page else folderOpen) ++ lit " " ++ name ++ [10].

Definition createTreeDisplay (fileTree : Map FileInfo) (showSize : bool) : jsstring :=
  let dirs := collectDirs fileTree in
  let sortedDirs := sort dirs in
  List.concat (map (treeLine fileTree showSize dirs) sortedDirs).

Definition renderTree (fileTree : Map FileInfo) : jsstring :=
  let resultText := lit "# Directory Structure" ++ [10; 10] ++ createTreeDisplay fileTree false in
  let readmeFiles :=
    filter (fun kv => isReadme (fst kv) && truthy (content (snd kv))) fileTree in
  if (0 <? List.length readmeFiles)%nat then
    resultText ++ [10] ++ lit "# README Files" ++ [10; 10]
    ++ List.concat (map (fun kv => lit "## " ++ fst kv ++ [10; 10] ++ content (snd kv) ++ [10; 10])
                   readmeFiles)
  else resultText.

Definition renderFull (st : ScanState) : jsstring :=
  lit "# " ++ folderClosed ++ lit " File Tree" ++ [10; 10]
  ++ createTreeDisplay (fileTree st) true
  ++ [10] ++ lit "# " ++ memo ++ lit " Files (Total: "
  ++ toFixed2 (div1024 (originalTotalSize st)) ++ lit " KB" ++ arrow
  ++ toFixed2 (div1024 (displayTotalSize st)) ++ lit " KB)" ++ [10; 10]
  ++ List.concat (map (fun kv => lit "```" ++ fst kv ++ [10] ++ content (snd kv) ++ [10]
                            ++ lit "```" ++ [10; 10])
                 (fileTree st)).

(** Lines 213-249: the text returned once the archive is scanned. *)
Definition render (r : Resolved) (st : ScanState) : JsError + jsstring :=
  if truthy_opt (targetFile r) then
    let t := match targetFile r with Some t => t | None => [] end in
    match Map_get (fileTree st) t with
    | None => inl (Error (lit "File not found: " ++ t))
    | Some fileEntry => inr (content fileEntry)
    end
  else if isTreeMode r then inr (renderTree (fileTree st))
  else inr (renderFull st).

(* ================================================================== *)
(** ** [processGitHubRepository] *)

(** What a call does: the string it resolves with or the error it rejects
    with, the requests it sent and the archive members it read. *)
Record Outcome : Type := mkOutcome {
  result : JsError + jsstring;
  requests : list Request;
  membersRead : list jsstring
}.

Definition rootPrefixOf (repo branch : jsstring) : jsstring :=
  repo ++ lit "-" ++ branch ++ lit "/".

Definition processGitHubRepository (P : Platform) (params : Params)
    (githubAccessToken : option jsstring) : Outcome :=
  match resolve P params with
  | inl e => mkOutcome (inl e) [] []
  | inr r =>
      match fetchWithFallback P (owner r) (repo r) (branch r) githubAccessToken with
      | (inl e, sent) => mkOutcome (inl e) sent []
      | (inr (branch', zipResp), sent) =>
          match JSZip_loadAsync P (body zipResp) with
          | inl e => mkOutcome (inl e) sent []
          | inr files =>
              let rootPrefix := rootPrefixOf (repo r) branch' in
              let st := scan r rootPrefix files in
              mkOutcome (render r st) sent (reads st)
          end
      end
  end.

(* ================================================================== *)
(** ** [mapGitHubErrorToStatus] ([src/app.ts]) *)

Definition mapGitHubErrorToStatus (error : JsError) : N :=
  match error with
  | GitHubFetchError status _ =>
      if (status =? 401) || (status =? 403) then 403
      else if status =? 404 then 404
      else 500
  | Error message =>
      let normalized := toLowerCase message in
      if includes normalized (lit "invalid url")
         || includes normalized (lit "invalid github repository url format")
         || includes normalized (lit "arguments are required")
         || includes normalized (lit "url parameter is required")
         || includes normalized (lit "url must be a non-empty string")
      then 400
      else if includes normalized (lit "file not found") then 404
      else 500
  end.

(* ================================================================== *)
(** ** The browser route ([createWebApp], [src/app.ts] lines 262-294) *)

(** The request as the handler reads it: the [pathname] of its URL and the
    five query parameters ([searchParams.get] answers [null] for a
    parameter that is absent, which the handler turns into [undefined]). *)
Record WebRequest : Type := mkWebRequest {
  web_pathname : jsstring;
  web_dir : option jsstring;
  web_ext : option jsstring;
  web_branch : option jsstring;
  web_file : option jsstring;
  web_mode : option jsstring
}.

(** What the handler answers: [c.text(resultText, 200)], or the page of
    [createErrorResponse], kept as the target URL, the message and the
    status it is called with. *)
Inductive WebResponse : Type :=
| TextResponse (text : jsstring) (status : N)
| ErrorPage (targetUrl errorMessage : jsstring) (status : N).

Definition webStatus (resp : WebResponse) : N :=
  match resp with
  | TextResponse _ status => status
  | ErrorPage _ _ status => status
  end.

(** The arguments the handler builds for [processGitHubRepository]. *)
Definition webArgs (path : jsstring) (req : WebRequest) : Params :=
  mkParams (if startsWith path (lit "http") then path else lit "https://" ++ path)
    (web_dir req) (web_ext req) (web_branch req) (web_file req) (web_mode req).

(** The handler of [app.get("/*")], with the requests it causes. *)
Definition webHandler (P : Platform) (req : WebRequest) : WebResponse * list Request :=
  let path := slice_from 1 (web_pathname req) in
  if negb (truthy path) then (ErrorPage [] (lit "No repository URL provided") 400, [])
  else
    let out := processGitHubRepository P (webArgs path req) None in
    match result out with
    | inr resultText => (TextResponse resultText 200, requests out)
    | inl e =>
        let rawMessage := message e in
        let status := mapGitHubErrorToStatus e in
        let msgPrefix := if status =? 500 then lit "Unexpected error" else lit "Request error" in
        let msg := msgPrefix ++ lit ": " ++ rawMessage in
        (ErrorPage path msg status, requests out)
    end.

(* ================================================================== *)
(** ** The MCP tool ([createMcpApp], [src/mcp.ts] lines 45-75) *)

(** The arguments of a call of [fetch_github_code]. *)
Record ToolArgs : Type := mkToolArgs {
  arg_url : option jsstring;
  arg_dir : option jsstring;
  arg_ext : option jsstring;
  arg_branch : option jsstring;
  arg_file : option jsstring;
  arg_mode : option jsstring
}.

(** [getAuthProps ? getAuthProps() : undefined], then
    [props?.githubAccessToken ?? null]: [getAuthProps] is absent, or answers
    with no props, or with the token of the props. *)
Definition githubTokenOf (getAuthProps : option (option jsstring)) : option jsstring :=
  match getAuthProps with
  | Some props => props
  | None => None
  end.

(** The handler of the tool: the text it returns or the error it throws,
    and the requests it causes. *)
Definition toolHandler (P : Platform) (getAuthProps : option (option jsstring))
    (args : option ToolArgs) : (JsError + jsstring) * list Request :=
  let githubToken := githubTokenOf getAuthProps in
  let wrap (e : JsError) : JsError :=
    Error (lit "Failed to fetch GitHub code: " ++ message e) in
  match args with
  | None => (inl (wrap (Error (lit "Arguments are required"))), [])
  | Some a =>
      match arg_url a with
      | None =>
          (inl (wrap (Error (lit "URL parameter is required. Please provide a GitHub repository URL (e.g., https://github.com/owner/repo)"))), [])
      | Some url =>
          if negb (truthy url) then
            (inl (wrap (Error (lit "URL parameter is required. Please provide a GitHub repository URL (e.g., https://github.com/owner/repo)"))), [])
          else if negb (truthy (trim url)) then
            (inl (wrap (Error (lit "URL must be a non-empty string"))), [])
          else
            let out :=
              processGitHubRepository P
                (mkParams url (arg_dir a) (arg_ext a) (arg_branch a) (arg_file a) (arg_mode a))
                githubToken in
            match result out with
            | inr text => (inr text, requests out)
            | inl e => (inl (wrap e), requests out)
            end
      end
  end.

(** [McpApiHandler] of the entry module builds the tool with
    [createMcpApp()], no [getAuthProps] given. *)
Definition McpApiHandler_tool (P : Platform) (args : option ToolArgs)
  : (JsError + jsstring) * list Request :=
  toolHandler P None args.

(* ================================================================== *)
(** * Vocabulary of the statements *)

(** ** Members of the archive in the loop *)

(** The path of a member relative to the root prefix. *)
Definition relativeOf (rootPrefix : jsstring) (fileObj : JSZipObject) : jsstring :=
  slice_from (List.length rootPrefix) (name fileObj).

(** The member passes lines 166-176: a file, under the root prefix, selected. *)
Definition considered (r : Resolved) (rootPrefix : jsstring) (fileObj : JSZipObject) : bool :=
  negb (dir fileObj) && startsWith (name fileObj) rootPrefix
  && selected r (relativeOf rootPrefix fileObj).

(** The member is recorded without its content (line 181). *)
Definition placeheld (r : Resolved) (rootPrefix : jsstring) (fileObj : JSZipObject) : bool :=
  isTreeMode r && negb (isReadme (relativeOf rootPrefix fileObj)).

(** [shouldSkipFile] as line 186 calls it. *)
Definition skipped (rootPrefix : jsstring) (hasTsConfig : bool) (fileObj : JSZipObject) : bool :=
  shouldSkipFile (relativeOf rootPrefix fileObj) (utf8_length (async_string fileObj))
    (Some (async_string fileObj)) hasTsConfig.

(** The value lines 190-209 store for a content. *)
Definition recordOf (content : jsstring) : FileInfo :=
  let size := utf8_length content in
  if MAX_DISPLAY_FILE_SIZE <? size
  then mkFileInfo size
         (substring0 content (N.to_nat MAX_DISPLAY_FILE_SIZE) ++ truncationNote size)
         (Some true)
  else mkFileInfo size content (Some false).

Definition displaySizeOf (content : jsstring) : N :=
  let size := utf8_length content in
  if MAX_DISPLAY_FILE_SIZE <? size then MAX_DISPLAY_FILE_SIZE else size.

Definition placeholder : FileInfo := mkFileInfo 0 [] None.

(** The member leaves an entry in [fileTree]. *)
Definition kept (r : Resolved) (rootPrefix : jsstring) (hasTsConfig : bool)
    (f : JSZipObject) : bool :=
  considered r rootPrefix f
  && (placeheld r rootPrefix f || negb (skipped rootPrefix hasTsConfig f)).

(** The entry it leaves. *)
Definition storedInfo (r : Resolved) (rootPrefix : jsstring) (f : JSZipObject) : FileInfo :=
  if placeheld r rootPrefix f then placeholder else recordOf (async_string f).

(** The member has its content read. *)
Definition contentRead (r : Resolved) (rootPrefix : jsstring) (f : JSZipObject) : bool :=
  considered r rootPrefix f && negb (placeheld r rootPrefix f).

(** ** Exclusions, README files, error kinds *)

(** The exclusions of [shouldSkipFile] other than the one for [.js] and
    [.mjs] files: lock file, image or binary extension, size above 500 KiB,
    binary content. *)
Definition otherExclusions (filename : jsstring) (size : N) (content : option jsstring) : bool :=
  let ext := pop_or_empty (split 46 (toLowerCase filename)) in
  matchesLock filename
  || (has imageExtensions (lit "." ++ ext) || has binaryExtensions (lit "." ++ ext))
  || (MAX_FILE_SIZE <? size)
  || match content with
     | Some c => truthy c && isBinaryContent c
     | None => false
     end.

(** The name of a file is the last segment of its path; it "is readme.md"
    when the two are equal up to the case of letters. *)
Definition fileNameOf (path : jsstring) : jsstring := pop_or_empty (split 47 path).

Definition isNamedReadme (path : jsstring) : bool :=
  jsstring_eqb (toLowerCase (fileNameOf path)) (lit "readme.md").

(** The phrases [mapGitHubErrorToStatus] answers 400 for, tested before
    [file not found]. *)
Definition invalidInputPhrases : list jsstring :=
  map lit ["invalid url"; "invalid github repository url format"; "arguments are required";
           "url parameter is required"; "url must be a non-empty string"]%string.

(** The two errors of the resolver: the kind [InvalidInput]. *)
Definition isInvalidInput (e : JsError) : Prop :=
  (exists msg, e = Error (lit "Invalid URL: " ++ msg))
  \/ e = Error (lit "Invalid GitHub repository URL format").

(** ** The resolver *)

(** The string handed to [new URL]. *)
Definition givenUrl (url : jsstring) : jsstring :=
  if startsWith url (lit "http") then url else lit "https://" ++ url.

(** The non-empty segments of a path. *)
Definition segmentsOf (pathname : jsstring) : list jsstring :=
  filter truthy (split 47 pathname).

(** A scheme, as RFC 3986 writes it: a letter, then letters, digits,
    [+], [-] or [.], up to a colon. *)
Definition isAlpha (c : code_unit) : bool :=
  ((65 <=? c) && (c <=? 90)) || ((97 <=? c) && (c <=? 122)).

Definition isSchemeChar (c : code_unit) : bool :=
  isAlpha c || ((48 <=? c) && (c <=? 57)) || (c =? 43) || (c =? 45) || (c =? 46).

Fixpoint afterSchemeChars (s : jsstring) : jsstring :=
  match s with
  | c :: s' => if isSchemeChar c then afterSchemeChars s' else s
  | [] => []
  end.

Definition hasScheme (url : jsstring) : bool :=
  match url with
  | c :: rest =>
      isAlpha c
      && match afterSchemeChars rest with
         | d :: _ => d =? 58
         | [] => false
         end
  | [] => false
  end.

(** The comma-split, trimmed, non-empty entries of a [dir] parameter. *)
Definition queryEntries (d : jsstring) : list jsstring :=
  filter truthy (map trim (split 44 d)).

(** The directory embedded in the path of the URL, if any. *)
Definition pathBaseDir (pathname : jsstring) : option jsstring :=
  hd_error (snd (fst (pathEmbedded (skipn 2 (segmentsOf pathname))))).

(** An entry without its leading slashes, with a trailing slash, and after
    the base directory when there is one that it does not start with. *)
Definition normalizedEntry (base : option jsstring) (entry : jsstring) : jsstring :=
  let e := withTrailingSlash (stripLeadingSlashes entry) in
  match base with
  | Some b => if startsWith e b then e else b ++ e
  | None => e
  end.

(** ** The binary-content heuristic *)

Module BinaryContent.

(** The division and comparison of the source, on two counters. *)
Definition exceeds (nonPrintable sampleSize : N) : bool :=
  PrimFloat.ltb 0.05%float
    (PrimFloat.div (Number_of_N nonPrintable) (Number_of_N sampleSize)).

(** The double comparison agrees with the comparison of naturals
    [sampleSize < 20 * nonPrintable] for every pair the loop can produce, by
    evaluation of the 501501 pairs. *)
Fixpoint agree_upto (s : N) (fuel : nat) (n : N) : bool :=
  match fuel with
  | O => true
  | S fuel' => Bool.eqb (exceeds n s) (s <? 20 * n) && agree_upto s fuel' (n + 1)
  end.

Fixpoint agree_all (fuel : nat) (s : N) : bool :=
  match fuel with
  | O => true
  | S fuel' => agree_upto s (S (N.to_nat s)) 0 && agree_all fuel' (s + 1)
  end.

(** The statement in the words of the specification: the sample is the
    first [min(length, 1000)] characters, a character counts when its code is
    0 or is below 32 and none of 9, 10, 13, and the content is binary when the
    counted fraction of the sample is strictly greater than 5%. *)
Definition sample (content : jsstring) : jsstring :=
  firstn (Nat.min (List.length content) 1000) content.

Definition isControl (c : code_unit) : bool :=
  (c =? 0) || ((c <? 32) && negb ((c =? 9) || (c =? 10) || (c =? 13))).

Definition controlCount (content : jsstring) : nat :=
  List.length (filter isControl (sample content)).

Definition controlFraction (content : jsstring) : Q :=
  (inject_Z (Z.of_nat (controlCount content))
   / inject_Z (Z.of_nat (List.length (sample content))))%Q.

End BinaryContent.

(** ** Sums over the entries of [fileTree] *)

(** The sizes of the entries, and what each shows of its size: at most
    30 KiB. *)
Definition sumSizes (m : Map FileInfo) : N :=
  fold_right (fun kv acc => size (snd kv) + acc) 0 m.

Definition sumDisplaySizes (m : Map FileInfo) : N :=
  fold_right (fun kv acc => N.min (size (snd kv)) MAX_DISPLAY_FILE_SIZE + acc) 0 m.

(** A name [shouldSkipFile] rejects whatever the content: a lock file, or
    an image or binary extension. *)
Definition excludedByName (filename : jsstring) : bool :=
  let ext := pop_or_empty (split 46 (toLowerCase filename)) in
  matchesLock filename
  || has imageExtensions (lit "." ++ ext) || has binaryExtensions (lit "." ++ ext).

(* ================================================================== *)
(** * A platform to run the pipeline on *)

Module Demo.

(** The part of a string before, and from, the first code unit that stops it. *)
Fixpoint upTo (stop : code_unit -> bool) (s : jsstring) : jsstring :=
  match s with
  | [] => []
  | c :: s' => if stop c then [] else c :: upTo stop s'
  end.

Fixpoint from (stop : code_unit -> bool) (s : jsstring) : jsstring :=
  match s with
  | [] => []
  | c :: s' => if stop c then s else from stop s'
  end.

(** A reader of plain [http://host/path] and [https://host/path] URLs: the
    path runs from the first slash after the host to the first [?] or [#].
    On such inputs, written with unreserved ASCII characters, it returns the
    [pathname] of [new URL]; like [new URL] it rejects a string that starts
    with no scheme. *)
Definition new_URL (s : jsstring) : jsstring + jsstring :=
  let afterScheme :=
    if startsWith s (lit "https://") then Some (skipn 8 s)
    else if startsWith s (lit "http://") then Some (skipn 7 s)
    else None in
  match afterScheme with
  | None => inl (lit "Invalid URL")
  | Some rest =>
      let isSlash c := c =? 47 in
      let endsPath c := (c =? 63) || (c =? 35) in
      let host := upTo (fun c => isSlash c || endsPath c) rest in
      let path := upTo endsPath (from isSlash (upTo endsPath rest)) in
      if truthy host then inr (if truthy path then path else lit "/")
      else inl (lit "Invalid URL")
  end.

(** A server given by the responses of the URLs it knows; any other URL is
    answered 404. The body of a response is the archive itself. *)
Definition notFound : Response (list JSZipObject) :=
  mkResponse 404 (lit "Not Found") [].

Fixpoint respond (table : list (jsstring * Response (list JSZipObject))) (u : jsstring)
  : Response (list JSZipObject) :=
  match table with
  | [] => notFound
  | (u', resp) :: table' => if jsstring_eqb u' u then resp else respond table' u
  end.

Definition platform (table : list (jsstring * Response (list JSZipObject))) : Platform :=
  mkPlatform (list JSZipObject) new_URL (fun req => respond table (req_url req)) inr.

Definition zipUrl (owner repo branch : string) : jsstring :=
  lit "https://codeload.github.com/" ++ lit owner ++ lit "/" ++ lit repo
  ++ lit "/zip/" ++ lit branch.

Definition okResponse (files : list JSZipObject) : Response (list JSZipObject) :=
  mkResponse 200 (lit "OK") files.

Definition file (path content : string) : JSZipObject :=
  mkZipObject (lit path) false (lit content).

Definition folder (path : string) : JSZipObject :=
  mkZipObject (lit path) true [].

Definition params (url : string) : Params :=
  mkParams (lit url) None None None None None.

End Demo.

(** Concrete archives and requests the statements below are run on. *)
Module Sample.

Definition files : list JSZipObject :=
  [ Demo.folder "r-main/";
    Demo.file "r-main/README.md" "# r";
    Demo.folder "r-main/src/";
    Demo.file "r-main/src/a.ts" "let a = 1;";
    Demo.file "r-main/dist/bundle.js" "var a;";
    Demo.file "r-main/pnpm-lock.yaml" "lockfileVersion: 9";
    Demo.file "r-main/docs/my-readme.md" "notes" ].

Definition filesTs : list JSZipObject :=
  files ++ [Demo.file "r-main/tsconfig.json" "{}"].

Definition rootPrefix : jsstring := lit "r-main/".

(** [github.com/o/r] in FULL mode, in TREE mode, and with a single-file target. *)
Definition full : Resolved :=
  mkResolved (lit "o") (lit "r") (lit "main") [] [] None false.

Definition tree : Resolved :=
  mkResolved (lit "o") (lit "r") (lit "main") [] [] None true.

Definition single (path : string) (isTreeMode : bool) : Resolved :=
  mkResolved (lit "o") (lit "r") (lit "main") [] [] (Some (lit path)) isTreeMode.

(** A server that has the archive on [main] only. *)
Definition onMain (archive : list JSZipObject) : Platform :=
  Demo.platform [(Demo.zipUrl "o" "r" "main", Demo.okResponse archive)].

(** A text of 11000 times U+3042, three bytes each in UTF-8. *)
Definition kana : jsstring := repeat 12354 (N.to_nat 11000).

(** A text of 40 KiB of the letter a. *)
Definition letters : jsstring := repeat 97 (N.to_nat 40960).

End Sample.

(* ================================================================== *)
(** * Properties *)

(** ** String lemmas *)

Lemma jsstring_eqb_eq (a b : jsstring) : jsstring_eqb a b = true <-> a = b.
Proof.
  revert b. induction a as [|x a IH]; intros [|y b]; simpl; split; intro H;
    try reflexivity; try discriminate.
  - apply andb_prop in H. destruct H as [Hx Ha].
    apply N.eqb_eq in Hx. apply IH in Ha. congruence.
  - injection H as -> ->. rewrite N.eqb_refl. now apply IH.
Qed.

Lemma jsstring_eqb_refl (a : jsstring) : jsstring_eqb a a = true.
Proof. now apply jsstring_eqb_eq. Qed.

Lemma startsWith_app (p s : jsstring) : startsWith (p ++ s) p = true.
Proof.
  induction p as [|c p IH]; simpl; [reflexivity|].
  now rewrite N.eqb_refl, IH.
Qed.

Lemma startsWith_split (s p : jsstring) :
  startsWith s p = true -> s = p ++ skipn (List.length p) s.
Proof.
  revert s. induction p as [|c p IH]; intros s H; simpl in *; [reflexivity|].
  destruct s as [|d s]; [discriminate|].
  apply andb_prop in H. destruct H as [Hc Hs].
  apply N.eqb_eq in Hc. subst d. simpl. f_equal. now apply IH.
Qed.

Ltac distinct_names :=
  repeat (constructor;
          [ let H := fresh "H" in
            simpl; intro H;
            repeat (destruct H as [H|H]; [discriminate H|]); exact H
          | ]);
  apply NoDup_nil.

(** Equality of two long strings, decided by evaluation. *)
Ltac same_string := apply jsstring_eqb_eq; vm_compute; reflexivity.

(* ================================================================== *)
(** ** The binary-content heuristic *)

Section BinaryContentFacts.

Import BinaryContent.

Lemma agree_upto_spec (s : N) (fuel : nat) :
  forall n0, agree_upto s fuel n0 = true ->
  forall n, n0 <= n < n0 + N.of_nat fuel -> exceeds n s = (s <? 20 * n).
Proof.
  induction fuel as [|fuel IH]; intros n0 H n Hn; [lia|].
  simpl in H. apply andb_prop in H. destruct H as [H0 H1].
  destruct (N.eq_dec n n0) as [->|Hne].
  - now apply Bool.eqb_prop.
  - apply (IH (n0 + 1) H1). lia.
Qed.

Lemma agree_all_spec (fuel : nat) :
  forall s0, agree_all fuel s0 = true ->
  forall s, s0 <= s < s0 + N.of_nat fuel -> agree_upto s (S (N.to_nat s)) 0 = true.
Proof.
  induction fuel as [|fuel IH]; intros s0 H s Hs; [lia|].
  simpl in H. apply andb_prop in H. destruct H as [H0 H1].
  destruct (N.eq_dec s s0) as [->|Hne].
  - exact H0.
  - apply (IH (s0 + 1) H1). lia.
Qed.

Lemma agree_all_1000 : agree_all 1001 0 = true.
Proof. vm_compute. reflexivity. Qed.

Lemma exceeds_spec (n s : N) : n <= s -> s <= 1000 -> exceeds n s = (s <? 20 * n).
Proof.
  intros Hn Hs.
  apply (agree_upto_spec s (S (N.to_nat s)) 0).
  - apply (agree_all_spec 1001 0 agree_all_1000). lia.
  - lia.
Qed.

Lemma isNonPrintable_Some (c : code_unit) : isNonPrintable (Some c) = isControl c.
Proof.
  unfold isNonPrintable, isControl. simpl.
  now rewrite orb_false_r, orb_assoc.
Qed.

Lemma count_loop (n : nat) :
  forall (pre rest : jsstring) (acc : N),
    (n <= List.length rest)%nat ->
    fold_left
      (fun nonPrintable i =>
         if isNonPrintable (charCodeAt (pre ++ rest) i) then nonPrintable + 1 else nonPrintable)
      (seq (List.length pre) n) acc
    = acc + N.of_nat (List.length (filter isControl (firstn n rest))).
Proof.
  induction n as [|n IH]; intros pre rest acc Hn.
  - simpl. lia.
  - destruct rest as [|c rest]; [simpl in Hn; lia|].
    simpl seq. simpl fold_left.
    assert (Hc : charCodeAt (pre ++ c :: rest) (List.length pre) = Some c).
    { unfold charCodeAt. rewrite nth_error_app2 by lia. now rewrite Nat.sub_diag. }
    rewrite Hc, isNonPrintable_Some.
    replace (pre ++ c :: rest) with ((pre ++ [c]) ++ rest) by now rewrite <- app_assoc.
    replace (S (List.length pre)) with (List.length (pre ++ [c]))
      by (rewrite length_app; simpl; lia).
    rewrite IH by (simpl in Hn; lia).
    simpl firstn. simpl filter.
    destruct (isControl c); simpl List.length; lia.
Qed.

Lemma countNonPrintable_spec (content : jsstring) :
  countNonPrintable content (sampleSizeOf content) = N.of_nat (controlCount content).
Proof.
  unfold countNonPrintable, controlCount, sample, sampleSizeOf.
  rewrite (count_loop _ [] content 0) by apply Nat.le_min_l.
  lia.
Qed.

Lemma sample_length (content : jsstring) :
  List.length (sample content) = sampleSizeOf content.
Proof.
  unfold sample, sampleSizeOf. rewrite length_firstn. lia.
Qed.

Lemma controlCount_le (content : jsstring) :
  (controlCount content <= List.length (sample content))%nat.
Proof. unfold controlCount. apply filter_length_le. Qed.

Lemma fraction_gt_5pct (a b : Z) :
  (0 <= a <= b)%Z ->
  ((5 # 100) < inject_Z a / inject_Z b)%Q <-> (b < 20 * a)%Z.
Proof.
  intros Hab. destruct b as [|p|p]; [| |lia].
  - assert (a = 0%Z) as -> by lia. unfold Qlt. simpl. lia.
  - rewrite <- Qmake_Qdiv. unfold Qlt. cbn [Qnum Qden]. lia.
Qed.

End BinaryContentFacts.

(** C8. [isBinaryContent] answers [true] exactly when, over the sample of
    the first [min(length, 1000)] characters, the fraction of characters
    whose code is 0, or is below 32 and none of 9 (tab), 10 (newline) and
    13 (carriage return), is strictly greater than 5%. On the empty string
    the sample is empty, no fraction exceeds anything and the answer is
    [false]. *)
Theorem isBinaryContent_spec (content : jsstring) :
  isBinaryContent content = true
  <-> ((5 # 100) < BinaryContent.controlFraction content)%Q.
Proof.
  unfold isBinaryContent, BinaryContent.controlFraction.
  rewrite countNonPrintable_spec.
  rewrite <- sample_length.
  pose proof (controlCount_le content) as Hle.
  pose proof (sample_length content) as Hlen.
  assert (Hs : (List.length (BinaryContent.sample content) <= 1000)%nat).
  { rewrite Hlen. unfold sampleSizeOf. lia. }
  change (PrimFloat.ltb 0.05 (PrimFloat.div ?a ?b))
    with (BinaryContent.exceeds (N.of_nat (BinaryContent.controlCount content))
            (N.of_nat (List.length (BinaryContent.sample content)))).
  rewrite exceeds_spec by lia.
  rewrite fraction_gt_5pct by lia.
  rewrite N.ltb_lt. lia.
Qed.

(* ================================================================== *)
(** ** The scan, one member at a time *)

Lemma Map_get_set_same {V} (m : Map V) (k : jsstring) (v : V) :
  Map_get (Map_set m k v) k = Some v.
Proof.
  induction m as [|[k' v'] m IH]; simpl.
  - now rewrite jsstring_eqb_refl.
  - destruct (jsstring_eqb k' k) eqn:E; simpl; rewrite E; [reflexivity|exact IH].
Qed.

Lemma Map_get_set_other {V} (m : Map V) (k k' : jsstring) (v : V) :
  k' <> k -> Map_get (Map_set m k v) k' = Map_get m k'.
Proof.
  intros Hne. induction m as [|[k0 v0] m IH]; simpl.
  - destruct (jsstring_eqb k k') eqn:E; [|reflexivity].
    apply jsstring_eqb_eq in E. congruence.
  - destruct (jsstring_eqb k0 k) eqn:E; simpl.
    + destruct (jsstring_eqb k0 k') eqn:E'; [|reflexivity].
      apply jsstring_eqb_eq in E, E'. congruence.
    + now rewrite IH.
Qed.

Section ScanStep.

Variable r : Resolved.
Variable rootPrefix : jsstring.
Variable hasTsConfig : bool.

Local Abbreviation step := (scanStep r rootPrefix hasTsConfig).
Local Abbreviation kept := (kept r rootPrefix hasTsConfig).
Local Abbreviation storedInfo := (storedInfo r rootPrefix).
Local Abbreviation contentRead := (contentRead r rootPrefix).

(** The four ways an iteration ends. *)
Lemma scanStep_cases (st : ScanState) (f : JSZipObject) :
  step st f =
  if negb (considered r rootPrefix f) then st
  else if placeheld r rootPrefix f then
    mkScanState (Map_set (fileTree st) (relativeOf rootPrefix f) placeholder)
      (originalTotalSize st) (displayTotalSize st) (reads st)
  else if skipped rootPrefix hasTsConfig f then
    mkScanState (fileTree st) (originalTotalSize st) (displayTotalSize st)
      (reads st ++ [name f])
  else
    mkScanState (Map_set (fileTree st) (relativeOf rootPrefix f) (recordOf (async_string f)))
      (originalTotalSize st + utf8_length (async_string f))
      (displayTotalSize st + displaySizeOf (async_string f))
      (reads st ++ [name f]).
Proof.
  unfold step, scanStep, considered, placeheld, skipped, recordOf, displaySizeOf,
    placeholder, relativeOf.
  destruct (dir f); [reflexivity|].
  destruct (startsWith (name f) rootPrefix); [|reflexivity].
  cbn [negb andb].
  destruct (selected r (slice_from (List.length rootPrefix) (name f))); [|reflexivity].
  cbn [negb].
  destruct (isTreeMode r && negb (isReadme (slice_from (List.length rootPrefix) (name f))));
    [reflexivity|].
  destruct (shouldSkipFile _ _ _ _); [reflexivity|].
  destruct (MAX_DISPLAY_FILE_SIZE <? utf8_length (async_string f)); reflexivity.
Qed.

Lemma scanStep_fileTree (st : ScanState) (f : JSZipObject) :
  fileTree (step st f) =
  if kept f then Map_set (fileTree st) (relativeOf rootPrefix f) (storedInfo f)
  else fileTree st.
Proof.
  rewrite scanStep_cases. unfold kept, storedInfo.
  destruct (considered r rootPrefix f); [|reflexivity].
  destruct (placeheld r rootPrefix f); [reflexivity|].
  destruct (skipped rootPrefix hasTsConfig f); reflexivity.
Qed.

Lemma scanStep_reads (st : ScanState) (f : JSZipObject) :
  reads (step st f) = reads st ++ (if contentRead f then [name f] else []).
Proof.
  rewrite scanStep_cases. unfold contentRead.
  destruct (considered r rootPrefix f); [|simpl; now rewrite app_nil_r].
  destruct (placeheld r rootPrefix f); [simpl; now rewrite app_nil_r|].
  destruct (skipped rootPrefix hasTsConfig f); reflexivity.
Qed.

Lemma scan_reads (files : list JSZipObject) (st : ScanState) :
  reads (fold_left step files st) = reads st ++ map name (filter contentRead files).
Proof.
  revert st. induction files as [|f files IH]; intro st; simpl.
  - now rewrite app_nil_r.
  - rewrite IH, scanStep_reads.
    destruct (contentRead f); simpl; now rewrite <- app_assoc.
Qed.

(** A key is absent after the loop exactly when it was absent before and
    no member left an entry under it. *)
Lemma scan_get_None (files : list JSZipObject) (k : jsstring) :
  forall st,
    Map_get (fileTree (fold_left step files st)) k = None
    <-> Map_get (fileTree st) k = None
        /\ forall f, In f files -> kept f = true -> relativeOf rootPrefix f <> k.
Proof.
  induction files as [|f files IH]; intro st; simpl.
  - split; [intro H; split; [exact H|intros f []]|intros [H _]; exact H].
  - rewrite IH, scanStep_fileTree. split.
    + intros [H1 H2]. destruct (kept f) eqn:Ek.
      * destruct (list_eq_dec N.eq_dec k (relativeOf rootPrefix f)) as [->|Hne].
        -- now rewrite Map_get_set_same in H1.
        -- rewrite Map_get_set_other in H1 by exact Hne.
           split; [exact H1|].
           intros f' [<-|Hin] Hk; [congruence|now apply H2].
      * split; [exact H1|].
        intros f' [<-|Hin] Hk; [congruence|now apply H2].
    + intros [H1 H2]. split; [|intros f' Hin; apply H2; now right].
      destruct (kept f) eqn:Ek; [|exact H1].
      rewrite Map_get_set_other; [exact H1|].
      intro E. now apply (H2 f (or_introl eq_refl) Ek).
Qed.

(** An entry stays as it is while no later member is stored under its key. *)
Lemma scan_get_preserved (files : list JSZipObject) (k : jsstring) :
  forall st,
    (forall f, In f files -> kept f = true -> relativeOf rootPrefix f <> k) ->
    Map_get (fileTree (fold_left step files st)) k = Map_get (fileTree st) k.
Proof.
  induction files as [|f files IH]; intros st H; simpl; [reflexivity|].
  rewrite IH by (intros f' Hin; apply H; now right).
  rewrite scanStep_fileTree.
  destruct (kept f) eqn:Ek; [|reflexivity].
  apply Map_get_set_other. intro E. now apply (H f (or_introl eq_refl) Ek).
Qed.

Lemma considered_name (f : JSZipObject) :
  considered r rootPrefix f = true ->
  dir f = false /\ name f = rootPrefix ++ relativeOf rootPrefix f.
Proof.
  unfold considered. intro H.
  apply andb_prop in H. destruct H as [H _].
  apply andb_prop in H. destruct H as [Hd Hs].
  split; [now destruct (dir f)|].
  now apply startsWith_split.
Qed.

(** In an archive whose member names are distinct, the entry of a kept
    member is the one its own iteration stored. *)
Lemma scan_get_kept (files : list JSZipObject) (f : JSZipObject) (st : ScanState) :
  NoDup (map name files) -> In f files -> kept f = true ->
  Map_get (fileTree (fold_left step files st)) (relativeOf rootPrefix f)
  = Some (storedInfo f).
Proof.
  intros Hnd Hin Hk.
  destruct (in_split _ _ Hin) as [l1 [l2 ->]].
  rewrite fold_left_app. simpl.
  rewrite scan_get_preserved.
  - rewrite scanStep_fileTree, Hk. apply Map_get_set_same.
  - intros f' Hin' Hk' E.
    rewrite map_app in Hnd. simpl in Hnd.
    apply NoDup_remove_2 in Hnd. apply Hnd.
    apply in_or_app. right.
    unfold kept in Hk, Hk'.
    apply andb_prop in Hk, Hk'. destruct Hk as [Hc _], Hk' as [Hc' _].
    apply considered_name in Hc, Hc'.
    destruct Hc as [_ Hn], Hc' as [_ Hn'].
    rewrite Hn, <- E, <- Hn'. now apply in_map.
Qed.

End ScanStep.

(* ================================================================== *)
(** ** Sizes and truncation *)

Lemma recordOf_small (content : jsstring) :
  utf8_length content <= MAX_DISPLAY_FILE_SIZE ->
  recordOf content = mkFileInfo (utf8_length content) content (Some false).
Proof.
  intro H. unfold recordOf.
  destruct (MAX_DISPLAY_FILE_SIZE <? utf8_length content) eqn:E; [|reflexivity].
  apply N.ltb_lt in E. lia.
Qed.

Lemma recordOf_large (content : jsstring) :
  MAX_DISPLAY_FILE_SIZE < utf8_length content ->
  recordOf content =
  mkFileInfo (utf8_length content)
    (substring0 content (N.to_nat MAX_DISPLAY_FILE_SIZE)
     ++ truncationNote (utf8_length content)) (Some true)
  /\ displaySizeOf content = MAX_DISPLAY_FILE_SIZE.
Proof.
  intro H. apply N.ltb_lt in H. unfold recordOf, displaySizeOf. rewrite H.
  split; reflexivity.
Qed.

(** A surviving file above 30 KiB, in an archive of distinct names: what
    is stored is the cut at 30720 code units followed by the note, marked
    truncated. *)
Lemma large_file_truncated
    (r : Resolved) (rootPrefix : jsstring) (files : list JSZipObject) (f : JSZipObject) :
  NoDup (map name files) ->
  In f files ->
  considered r rootPrefix f = true ->
  placeheld r rootPrefix f = false ->
  skipped rootPrefix (hasTsConfigOf rootPrefix files) f = false ->
  MAX_DISPLAY_FILE_SIZE < utf8_length (async_string f) ->
  Map_get (fileTree (scan r rootPrefix files)) (relativeOf rootPrefix f)
  = Some (mkFileInfo (utf8_length (async_string f))
            (substring0 (async_string f) (N.to_nat MAX_DISPLAY_FILE_SIZE)
             ++ truncationNote (utf8_length (async_string f)))
            (Some true)).
Proof.
  intros Hnd Hin Hc Hp Hs Hsize.
  assert (Hk : kept r rootPrefix (hasTsConfigOf rootPrefix files) f = true).
  { unfold kept. now rewrite Hc, Hp, Hs. }
  unfold scan. rewrite (scan_get_kept _ _ _ files f _ Hnd Hin Hk).
  unfold storedInfo. rewrite Hp.
  now rewrite (proj1 (recordOf_large _ Hsize)).
Qed.

(** C5. Round trip: in an archive (member names distinct) a file that
    survives filtering -- it is a file under the root prefix, selected, its
    content is read (FULL mode, or a README under TREE mode) and
    [shouldSkipFile] lets it through -- and whose UTF-8 size is at most
    30 KiB is stored with [isTruncated] false and with its original content;
    when it is the single-file target, that content is what the pipeline
    returns. *)
Theorem small_file_roundtrip
    (r : Resolved) (rootPrefix : jsstring) (files : list JSZipObject) (f : JSZipObject) :
  NoDup (map name files) ->
  In f files ->
  considered r rootPrefix f = true ->
  placeheld r rootPrefix f = false ->
  skipped rootPrefix (hasTsConfigOf rootPrefix files) f = false ->
  utf8_length (async_string f) <= MAX_DISPLAY_FILE_SIZE ->
  Map_get (fileTree (scan r rootPrefix files)) (relativeOf rootPrefix f)
  = Some (mkFileInfo (utf8_length (async_string f)) (async_string f) (Some false))
  /\ (truthy_opt (targetFile r) = true ->
      render r (scan r rootPrefix files) = inr (async_string f)).
Proof.
  intros Hnd Hin Hc Hp Hs Hsize.
  assert (Hk : kept r rootPrefix (hasTsConfigOf rootPrefix files) f = true).
  { unfold kept. now rewrite Hc, Hp, Hs. }
  assert (Hget : Map_get (fileTree (scan r rootPrefix files)) (relativeOf rootPrefix f)
                 = Some (mkFileInfo (utf8_length (async_string f)) (async_string f) (Some false))).
  { unfold scan. rewrite (scan_get_kept _ _ _ files f _ Hnd Hin Hk).
    unfold storedInfo. rewrite Hp. now rewrite recordOf_small. }
  split; [exact Hget|].
  intro Ht. unfold render. rewrite Ht.
  unfold considered, selected in Hc.
  destruct (targetFile r) as [t|]; [|discriminate].
  simpl in Ht. rewrite Ht in Hc.
  apply andb_prop in Hc. destruct Hc as [_ Heq].
  apply jsstring_eqb_eq in Heq. rewrite <- Heq, Hget. reflexivity.
Qed.

(** Witness of C5 on [src/a.ts] of the sample archive. *)
Lemma small_file_roundtrip_witness :
  Map_get (fileTree (scan (Sample.single "src/a.ts" false) Sample.rootPrefix Sample.files))
    (lit "src/a.ts")
  = Some (mkFileInfo 10 (lit "let a = 1;") (Some false))
  /\ (truthy_opt (targetFile (Sample.single "src/a.ts" false)) = true ->
      render (Sample.single "src/a.ts" false)
        (scan (Sample.single "src/a.ts" false) Sample.rootPrefix Sample.files)
      = inr (lit "let a = 1;")).
Proof.
  apply (small_file_roundtrip (Sample.single "src/a.ts" false) Sample.rootPrefix
           Sample.files (Demo.file "r-main/src/a.ts" "let a = 1;")).
  - unfold Sample.files. simpl map. distinct_names.
  - simpl. tauto.
  - reflexivity.
  - reflexivity.
  - vm_compute. reflexivity.
  - vm_compute. discriminate.
Defined.

Lemma utf8_length_ascii (s : jsstring) :
  Forall (fun c => c < 128) s -> utf8_length s = N.of_nat (List.length s).
Proof.
  induction 1 as [|c s Hc _ IH]; [reflexivity|].
  cbn [utf8_length]. apply N.ltb_lt in Hc. rewrite Hc, IH.
  cbn [List.length]. lia.
Qed.

Lemma Forall_firstn' {A} (P : A -> Prop) (n : nat) (l : list A) :
  Forall P l -> Forall P (firstn n l).
Proof.
  intro H. rewrite <- (firstn_skipn n l) in H.
  now apply Forall_app in H.
Qed.

(** Where a truncation keeps 30 KiB: on a content of ASCII characters the
    30720 code units kept are 30720 bytes. *)
Lemma truncated_ascii_keeps_30KiB (content : jsstring) :
  Forall (fun c => c < 128) content ->
  MAX_DISPLAY_FILE_SIZE < utf8_length content ->
  utf8_length (substring0 content (N.to_nat MAX_DISPLAY_FILE_SIZE)) = MAX_DISPLAY_FILE_SIZE.
Proof.
  intros Hascii Hsize.
  rewrite (utf8_length_ascii content Hascii) in Hsize.
  unfold substring0. rewrite utf8_length_ascii by now apply Forall_firstn'.
  rewrite length_firstn. unfold MAX_DISPLAY_FILE_SIZE in *. lia.
Qed.

(** The 40 KiB file of the specification: 30 KiB of the original and the
    note of 10.00KB remaining. *)
Lemma truncation_of_40KiB :
  utf8_length Sample.letters = 40 * 1024
  /\ recordOf Sample.letters
     = mkFileInfo (40 * 1024)
         (repeat 97 (N.to_nat (30 * 1024)) ++ [10; 10]
          ++ lit "This file is too large, truncated at 30KB. There is 10.00KB remaining.")
         (Some true)
  /\ displaySizeOf Sample.letters = 30 * 1024.
Proof.
  assert (Hsize : utf8_length Sample.letters = 40 * 1024) by (vm_compute; reflexivity).
  destruct (recordOf_large Sample.letters) as [Hrec Hdisp].
  { rewrite Hsize. reflexivity. }
  rewrite Hrec, Hdisp, Hsize.
  split; [reflexivity|split; [|reflexivity]].
  assert (Hcut : substring0 Sample.letters (N.to_nat MAX_DISPLAY_FILE_SIZE)
                 = repeat 97 (N.to_nat (30 * 1024))) by same_string.
  assert (Hnote : truncationNote (40 * 1024)
                  = [10; 10] ++ lit "This file is too large, truncated at 30KB. There is 10.00KB remaining.")
    by (vm_compute; reflexivity).
  now rewrite Hcut, Hnote.
Qed.

(** C1, on the code: the size is counted in UTF-8 bytes and the cut is made
    at 30720 UTF-16 code units. A file of 11000 characters of three bytes
    (33000 bytes) is above the limit; the cut keeps all of it, all 33000
    bytes rather than 30 KiB, and still appends the note of 2.23KB
    remaining, marks the file truncated and counts 30 KiB toward
    [displayTotalSize]. *)
Theorem truncation_cuts_code_units_not_bytes :
  let f := mkZipObject (lit "r-main/notes.md") false Sample.kana in
  let st := scan Sample.full Sample.rootPrefix [f] in
  kept Sample.full Sample.rootPrefix false f = true
  /\ utf8_length Sample.kana = 33000
  /\ Map_get (fileTree st) (lit "notes.md")
     = Some (mkFileInfo 33000
               (Sample.kana ++ [10; 10]
                ++ lit "This file is too large, truncated at 30KB. There is 2.23KB remaining.")
               (Some true))
  /\ utf8_length (substring0 Sample.kana (N.to_nat MAX_DISPLAY_FILE_SIZE)) = 33000
  /\ displayTotalSize st = 30 * 1024.
Proof.
  intros f st.
  assert (Hsize : utf8_length Sample.kana = 33000) by (vm_compute; reflexivity).
  assert (Hkept : kept Sample.full Sample.rootPrefix false f = true)
    by (vm_compute; reflexivity).
  destruct (recordOf_large Sample.kana) as [Hrec Hdisp].
  { rewrite Hsize. reflexivity. }
  assert (Hcut : substring0 Sample.kana (N.to_nat MAX_DISPLAY_FILE_SIZE) = Sample.kana)
    by same_string.
  refine (conj _ (conj _ (conj _ (conj _ _)))).
  - exact Hkept.
  - exact Hsize.
  - unfold st, scan. simpl fold_left.
    change (hasTsConfigOf Sample.rootPrefix [f]) with false.
    rewrite scanStep_fileTree, Hkept.
    change (relativeOf Sample.rootPrefix f) with (lit "notes.md").
    rewrite Map_get_set_same. unfold storedInfo.
    change (placeheld Sample.full Sample.rootPrefix f) with false.
    cbv iota. change (async_string f) with Sample.kana.
    rewrite Hrec, Hcut, Hsize. reflexivity.
  - now rewrite Hcut.
  - unfold st, scan. simpl fold_left.
    change (hasTsConfigOf Sample.rootPrefix [f]) with false.
    rewrite scanStep_cases.
    replace (considered Sample.full Sample.rootPrefix f) with true by reflexivity.
    replace (placeheld Sample.full Sample.rootPrefix f) with false by reflexivity.
    replace (skipped Sample.rootPrefix false f) with false
      by (symmetry; vm_compute; reflexivity).
    cbn [negb displayTotalSize initialScanState].
    change (async_string f) with Sample.kana. rewrite Hdisp. reflexivity.
Qed.

(* ================================================================== *)
(** ** Generated JavaScript in a TypeScript project *)

Lemma shouldSkipFile_js (filename : jsstring) (size : N) (content : option jsstring) :
  endsWith filename (lit ".js") || endsWith filename (lit ".mjs") = true ->
  shouldSkipFile filename size content true = true.
Proof.
  intro H. unfold shouldSkipFile. rewrite H.
  destruct (matchesLock filename); [reflexivity|].
  destruct (has imageExtensions _ || has binaryExtensions _); reflexivity.
Qed.

Lemma shouldSkipFile_without_tsconfig (filename : jsstring) (size : N) (content : option jsstring) :
  shouldSkipFile filename size content false = otherExclusions filename size content.
Proof.
  unfold shouldSkipFile, otherExclusions.
  destruct (matchesLock filename); [reflexivity|].
  destruct (has imageExtensions _ || has binaryExtensions _); [reflexivity|].
  cbn [andb orb].
  destruct (MAX_FILE_SIZE <? size); [reflexivity|].
  destruct content as [c|]; [|reflexivity].
  destruct (truthy c && isBinaryContent c); reflexivity.
Qed.

(** C7. For a path that ends in [.js] or [.mjs]: in an archive with an
    entry under the root prefix whose name ends with [tsconfig.json], FULL
    mode stores nothing under that path; in an archive with no such entry
    [shouldSkipFile] is the other exclusions alone, and a selected file at
    that path which passes them is stored. *)
Theorem tsconfig_excludes_generated_js
    (r : Resolved) (rootPrefix : jsstring) (files : list JSZipObject) (path : jsstring) :
  endsWith path (lit ".js") || endsWith path (lit ".mjs") = true ->
  isTreeMode r = false ->
  (hasTsConfigOf rootPrefix files = true ->
   Map_get (fileTree (scan r rootPrefix files)) path = None)
  /\ (hasTsConfigOf rootPrefix files = false ->
      (forall size content,
          shouldSkipFile path size content (hasTsConfigOf rootPrefix files)
          = otherExclusions path size content)
      /\ forall f,
          In f files -> considered r rootPrefix f = true ->
          relativeOf rootPrefix f = path ->
          otherExclusions path (utf8_length (async_string f)) (Some (async_string f)) = false ->
          exists info, Map_get (fileTree (scan r rootPrefix files)) path = Some info).
Proof.
  intros Hjs Hfull. split.
  - intro Hts. unfold scan. apply scan_get_None. split; [reflexivity|].
    intros f _ Hk E. unfold kept in Hk.
    apply andb_prop in Hk. destruct Hk as [_ Hk].
    unfold placeheld in Hk. rewrite Hfull in Hk. cbn [andb orb] in Hk.
    unfold skipped in Hk. rewrite Hts, E, shouldSkipFile_js in Hk by exact Hjs.
    discriminate.
  - intro Hts. rewrite Hts. split.
    + intros. apply shouldSkipFile_without_tsconfig.
    + intros f Hin Hc E Hother.
      destruct (Map_get (fileTree (scan r rootPrefix files)) path) as [info|] eqn:G;
        [now exists info|].
      unfold scan in G. apply scan_get_None in G. destruct G as [_ G].
      exfalso. apply (G f Hin); [|exact E].
      unfold kept. rewrite Hc. unfold skipped.
      rewrite Hts, E, shouldSkipFile_without_tsconfig, Hother.
      now rewrite orb_true_r.
Qed.

(** Witness of C7: [dist/bundle.js] with and without [tsconfig.json]. *)
Lemma tsconfig_excludes_generated_js_witness :
  Map_get (fileTree (scan Sample.full Sample.rootPrefix Sample.filesTs)) (lit "dist/bundle.js")
  = None
  /\ exists info,
      Map_get (fileTree (scan Sample.full Sample.rootPrefix Sample.files)) (lit "dist/bundle.js")
      = Some info.
Proof.
  split.
  - apply (tsconfig_excludes_generated_js Sample.full Sample.rootPrefix Sample.filesTs
             (lit "dist/bundle.js")); reflexivity.
  - apply (tsconfig_excludes_generated_js Sample.full Sample.rootPrefix Sample.files
             (lit "dist/bundle.js") eq_refl eq_refl)
      with (f := Demo.file "r-main/dist/bundle.js" "var a;").
    + reflexivity.
    + simpl. tauto.
    + reflexivity.
    + reflexivity.
    + vm_compute. reflexivity.
Defined.

(* ================================================================== *)
(** ** TREE mode *)

(** C6, as the code has it. Under TREE mode a considered member (a file,
    under the root prefix, selected) whose relative path does not end in
    [readme.md], letters of either case, is recorded as the placeholder of
    size 0 and empty content: nothing is read and [shouldSkipFile] is not
    asked, whatever it would answer. A member whose path does end in
    [readme.md] has its content read, and is stored or dropped as
    [shouldSkipFile] decides. Over the whole archive the members read are
    exactly the considered ones whose path ends in [readme.md], and in an
    archive of distinct names the placeholder is what [fileTree] holds for
    each of the others. *)
Theorem tree_mode_reads_only_readme_suffix
    (r : Resolved) (rootPrefix : jsstring) (hasTsConfig : bool)
    (st : ScanState) (f : JSZipObject) (files : list JSZipObject) :
  isTreeMode r = true ->
  considered r rootPrefix f = true ->
  (if isReadme (relativeOf rootPrefix f)
   then
     reads (scanStep r rootPrefix hasTsConfig st f) = reads st ++ [name f]
     /\ fileTree (scanStep r rootPrefix hasTsConfig st f)
        = if shouldSkipFile (relativeOf rootPrefix f) (utf8_length (async_string f))
               (Some (async_string f)) hasTsConfig
          then fileTree st
          else Map_set (fileTree st) (relativeOf rootPrefix f) (recordOf (async_string f))
   else
     scanStep r rootPrefix hasTsConfig st f
     = mkScanState (Map_set (fileTree st) (relativeOf rootPrefix f) (mkFileInfo 0 [] None))
         (originalTotalSize st) (displayTotalSize st) (reads st))
  /\ reads (scan r rootPrefix files)
     = map name
         (filter (fun g => considered r rootPrefix g && isReadme (relativeOf rootPrefix g))
            files)
  /\ (NoDup (map name files) -> In f files ->
      isReadme (relativeOf rootPrefix f) = false ->
      Map_get (fileTree (scan r rootPrefix files)) (relativeOf rootPrefix f)
      = Some (mkFileInfo 0 [] None)).
Proof.
  intros Htree Hc. split; [|split].
  - rewrite scanStep_cases. rewrite Hc. unfold placeheld, skipped. rewrite Htree.
    cbn [negb andb].
    destruct (isReadme (relativeOf rootPrefix f)); cbn [negb].
    + destruct (shouldSkipFile _ _ _ _); split; reflexivity.
    + reflexivity.
  - unfold scan. rewrite scan_reads. cbn [reads initialScanState app].
    f_equal. apply filter_ext. intro g.
    unfold contentRead, placeheld. rewrite Htree. cbn [andb].
    now rewrite negb_involutive.
  - intros Hnd Hin Hnr.
    assert (Hp : placeheld r rootPrefix f = true)
      by (unfold placeheld; now rewrite Htree, Hnr).
    unfold scan. rewrite (scan_get_kept r rootPrefix _ files f _ Hnd Hin).
    + unfold storedInfo. now rewrite Hp.
    + unfold kept. now rewrite Hc, Hp.
Qed.

(** Witness of C6: the lock file of the sample archive is recorded as a
    placeholder, and the two files read are those ending in [readme.md]. *)
Lemma tree_mode_reads_only_readme_suffix_witness :
  scanStep Sample.tree Sample.rootPrefix false initialScanState
    (Demo.file "r-main/pnpm-lock.yaml" "lockfileVersion: 9")
  = mkScanState [(lit "pnpm-lock.yaml", mkFileInfo 0 [] None)] 0 0 []
  /\ reads (scan Sample.tree Sample.rootPrefix Sample.files)
     = [lit "r-main/README.md"; lit "r-main/docs/my-readme.md"]
  /\ (NoDup (map name Sample.files) ->
      In (Demo.file "r-main/pnpm-lock.yaml" "lockfileVersion: 9") Sample.files ->
      isReadme (lit "pnpm-lock.yaml") = false ->
      Map_get (fileTree (scan Sample.tree Sample.rootPrefix Sample.files))
        (lit "pnpm-lock.yaml")
      = Some (mkFileInfo 0 [] None)).
Proof.
  exact (tree_mode_reads_only_readme_suffix Sample.tree Sample.rootPrefix false
           initialScanState (Demo.file "r-main/pnpm-lock.yaml" "lockfileVersion: 9")
           Sample.files eq_refl eq_refl).
Defined.

(** C6 as stated fails: [docs/my-readme.md] is not named [readme.md], and
    under TREE mode its content is read and stored with its size. *)
Lemma tree_mode_reads_file_not_named_readme :
  isTreeMode Sample.tree = true
  /\ considered Sample.tree Sample.rootPrefix (Demo.file "r-main/docs/my-readme.md" "notes") = true
  /\ fileNameOf (lit "docs/my-readme.md") = lit "my-readme.md"
  /\ isNamedReadme (lit "docs/my-readme.md") = false
  /\ scanStep Sample.tree Sample.rootPrefix false initialScanState
       (Demo.file "r-main/docs/my-readme.md" "notes")
     = mkScanState [(lit "docs/my-readme.md", mkFileInfo 5 (lit "notes") (Some false))]
         5 5 [lit "r-main/docs/my-readme.md"].
Proof. vm_compute. repeat split. Qed.

(** A key under which every kept member stores the same value holds that
    value after the loop, once one such member exists. *)
Lemma scan_get_uniform (r : Resolved) (rootPrefix : jsstring) (hasTsConfig : bool)
    (k : jsstring) (v : FileInfo) (files : list JSZipObject) :
  (forall f, In f files -> kept r rootPrefix hasTsConfig f = true ->
             relativeOf rootPrefix f = k -> storedInfo r rootPrefix f = v) ->
  forall st,
    (Map_get (fileTree st) k = Some v
     \/ exists f, In f files /\ kept r rootPrefix hasTsConfig f = true
                  /\ relativeOf rootPrefix f = k) ->
    Map_get (fileTree (fold_left (scanStep r rootPrefix hasTsConfig) files st)) k = Some v.
Proof.
  induction files as [|f files IH]; intros Hall st Hst.
  - destruct Hst as [H|[f [[] _]]]. exact H.
  - simpl. apply IH; [intros g Hg; apply Hall; now right|].
    rewrite scanStep_fileTree.
    destruct (kept r rootPrefix hasTsConfig f) eqn:Ek.
    + destruct (list_eq_dec N.eq_dec (relativeOf rootPrefix f) k) as [E|Hne].
      * left. rewrite E, Map_get_set_same. f_equal.
        apply Hall; [now left|exact Ek|exact E].
      * rewrite Map_get_set_other by congruence.
        destruct Hst as [H|[g [[<-|Hg] [Hk E]]]]; [now left|congruence|].
        right. now exists g.
    + destruct Hst as [H|[g [[<-|Hg] [Hk E]]]]; [now left|congruence|].
      right. now exists g.
Qed.

(* ================================================================== *)
(** ** The pipeline once the archive is loaded *)

Lemma processGitHubRepository_loaded (P : Platform) (params : Params)
    (token : option jsstring) (r : Resolved) (b : jsstring)
    (resp : Response (ArrayBuffer P)) (sent : list Request) (files : list JSZipObject) :
  resolve P params = inr r ->
  fetchWithFallback P (owner r) (repo r) (branch r) token = (inr (b, resp), sent) ->
  JSZip_loadAsync P (body resp) = inr files ->
  processGitHubRepository P params token
  = let st := scan r (rootPrefixOf (repo r) b) files in
    mkOutcome (render r st) sent (reads st).
Proof.
  intros Hr Hf Hz. unfold processGitHubRepository. now rewrite Hr, Hf, Hz.
Qed.

Lemma filter_none {A} (p : A -> bool) (l : list A) :
  (forall x, p x = false) -> filter p l = [].
Proof.
  intro H. induction l as [|x l IH]; simpl; [reflexivity|]. now rewrite H.
Qed.

Lemma selected_single (r : Resolved) (t rel : jsstring) :
  targetFile r = Some t -> truthy t = true ->
  selected r rel = jsstring_eqb rel t.
Proof. intros Ht Htr. unfold selected. now rewrite Ht, Htr. Qed.

Lemma considered_single (r : Resolved) (rootPrefix t : jsstring) (f : JSZipObject) :
  targetFile r = Some t -> truthy t = true ->
  considered r rootPrefix f = true
  <-> dir f = false /\ name f = rootPrefix ++ t.
Proof.
  intros Ht Htr. unfold considered. rewrite (selected_single r t _ Ht Htr). split.
  - intro H. apply andb_prop in H. destruct H as [H Heq].
    apply andb_prop in H. destruct H as [Hd Hs].
    apply jsstring_eqb_eq in Heq.
    split; [now destruct (dir f)|].
    rewrite <- Heq. now apply startsWith_split.
  - intros [Hd Hn]. rewrite Hd, Hn, startsWith_app. cbn [negb andb].
    apply jsstring_eqb_eq. unfold relativeOf, slice_from.
    rewrite Hn. now rewrite skipn_app, skipn_all, Nat.sub_diag.
Qed.

(** C10. A request with a single-file target and TREE mode, whose target
    is a file of the archive under the root prefix and does not end in
    [readme.md] (letters of either case), resolves with the empty string:
    the placeholder of the target is returned, no content is read and none
    of the exclusions of [shouldSkipFile] is consulted. *)
Theorem tree_mode_single_file_is_empty
    (P : Platform) (params : Params) (token : option jsstring)
    (r : Resolved) (t b : jsstring) (resp : Response (ArrayBuffer P))
    (sent : list Request) (files : list JSZipObject) :
  resolve P params = inr r ->
  targetFile r = Some t -> truthy t = true ->
  isTreeMode r = true ->
  isReadme t = false ->
  fetchWithFallback P (owner r) (repo r) (branch r) token = (inr (b, resp), sent) ->
  JSZip_loadAsync P (body resp) = inr files ->
  (exists f, In f files /\ dir f = false /\ name f = rootPrefixOf (repo r) b ++ t) ->
  result (processGitHubRepository P params token) = inr []
  /\ membersRead (processGitHubRepository P params token) = []
  /\ Map_get (fileTree (scan r (rootPrefixOf (repo r) b) files)) t
     = Some (mkFileInfo 0 [] None).
Proof.
  intros Hr Ht Htr Htree Hnr Hf Hz [f [Hin [Hd Hn]]].
  rewrite (processGitHubRepository_loaded P params token r b resp sent files Hr Hf Hz).
  cbv zeta. cbn [result membersRead].
  set (root := rootPrefixOf (repo r) b) in *.
  assert (Hrel : forall g, considered r root g = true -> relativeOf root g = t).
  { intros g Hg. unfold considered in Hg. rewrite (selected_single r t _ Ht Htr) in Hg.
    apply andb_prop in Hg. destruct Hg as [_ Hg]. now apply jsstring_eqb_eq. }
  assert (Hph : forall g, considered r root g = true -> placeheld r root g = true).
  { intros g Hg. unfold placeheld. now rewrite Htree, (Hrel g Hg), Hnr. }
  assert (Hget : Map_get (fileTree (scan r root files)) t = Some placeholder).
  { unfold scan. apply scan_get_uniform.
    - intros g _ Hk _. unfold kept in Hk. apply andb_prop in Hk. destruct Hk as [Hg _].
      unfold storedInfo. now rewrite (Hph g Hg).
    - right. exists f.
      assert (Hcf : considered r root f = true)
        by (apply (considered_single r root t f Ht Htr); now split).
      split; [exact Hin|]. split; [|now apply Hrel].
      unfold kept. now rewrite Hcf, (Hph f Hcf). }
  split; [|split].
  - unfold render. rewrite Ht. cbn [truthy_opt]. rewrite Htr, Hget. reflexivity.
  - unfold scan. rewrite scan_reads. cbn [reads initialScanState app].
    rewrite filter_none; [reflexivity|].
    intro g. unfold contentRead.
    destruct (considered r root g) eqn:Hg; [|reflexivity].
    now rewrite (Hph g Hg).
  - exact Hget.
Qed.

(** Witness of C10: the lock file of the sample archive as the target. *)
Lemma tree_mode_single_file_is_empty_witness :
  let params :=
    mkParams (lit "github.com/o/r") None None None (Some (lit "pnpm-lock.yaml"))
      (Some (lit "tree")) in
  result (processGitHubRepository (Sample.onMain Sample.files) params None) = inr []
  /\ membersRead (processGitHubRepository (Sample.onMain Sample.files) params None) = []
  /\ Map_get (fileTree (scan (Sample.single "pnpm-lock.yaml" true) Sample.rootPrefix Sample.files))
       (lit "pnpm-lock.yaml")
     = Some (mkFileInfo 0 [] None).
Proof.
  apply (tree_mode_single_file_is_empty (Sample.onMain Sample.files)
           (mkParams (lit "github.com/o/r") None None None (Some (lit "pnpm-lock.yaml"))
              (Some (lit "tree")))
           None (Sample.single "pnpm-lock.yaml" true) (lit "pnpm-lock.yaml") (lit "main")
           (Demo.okResponse Sample.files)
           [zipRequest (lit "o") (lit "r") (lit "main") None] Sample.files).
  - reflexivity.
  - reflexivity.
  - reflexivity.
  - reflexivity.
  - reflexivity.
  - reflexivity.
  - reflexivity.
  - exists (Demo.file "r-main/pnpm-lock.yaml" "lockfileVersion: 9").
    split; [simpl; tauto|split; reflexivity].
Defined.

(* ================================================================== *)
(** ** A single-file target *)

(** What the pipeline answers for a single-file target once the archive is
    loaded: the stored content of the target, or [File not found] when
    nothing is stored under it; and nothing is stored exactly when every
    file of that path under the root prefix had its content read and was
    dropped by [shouldSkipFile] (in particular when there is no such file). *)
Lemma single_file_outcome
    (P : Platform) (params : Params) (token : option jsstring)
    (r : Resolved) (t b : jsstring) (resp : Response (ArrayBuffer P))
    (sent : list Request) (files : list JSZipObject) :
  resolve P params = inr r ->
  targetFile r = Some t -> truthy t = true ->
  fetchWithFallback P (owner r) (repo r) (branch r) token = (inr (b, resp), sent) ->
  JSZip_loadAsync P (body resp) = inr files ->
  let root := rootPrefixOf (repo r) b in
  let st := scan r root files in
  result (processGitHubRepository P params token)
  = match Map_get (fileTree st) t with
    | Some fileEntry => inr (content fileEntry)
    | None => inl (Error (lit "File not found: " ++ t))
    end
  /\ (Map_get (fileTree st) t = None
      <-> forall f, In f files -> dir f = false -> name f = root ++ t ->
                    placeheld r root f = false
                    /\ skipped root (hasTsConfigOf root files) f = true).
Proof.
  intros Hr Ht Htr Hf Hz root st.
  rewrite (processGitHubRepository_loaded P params token r b resp sent files Hr Hf Hz).
  cbv zeta. cbn [result]. fold root. fold st. split.
  - unfold render. rewrite Ht. cbn [truthy_opt]. rewrite Htr. reflexivity.
  - unfold st, scan. rewrite scan_get_None. cbn [fileTree initialScanState Map_get].
    split.
    + intros [_ H] f Hin Hd Hn.
      assert (Hc : considered r root f = true)
        by (apply (considered_single r root t f Ht Htr); now split).
      assert (Hrel : relativeOf root f = t).
      { unfold relativeOf, slice_from. rewrite Hn.
        now rewrite skipn_app, skipn_all, Nat.sub_diag. }
      specialize (H f Hin). unfold kept in H. rewrite Hc in H. cbn [andb] in H.
      destruct (placeheld r root f); [exfalso; now apply H|].
      destruct (skipped root (hasTsConfigOf root files) f); [now split|].
      exfalso. now apply H.
    + intro H. split; [reflexivity|].
      intros f Hin Hk Hrel.
      unfold kept in Hk. apply andb_prop in Hk. destruct Hk as [Hc Hk].
      apply (considered_single r root t f Ht Htr) in Hc. destruct Hc as [Hd Hn].
      destruct (H f Hin Hd Hn) as [Hp Hs]. rewrite Hp, Hs in Hk. discriminate.
Qed.

Lemma toLowerCase_app (a b : jsstring) :
  toLowerCase (a ++ b) = toLowerCase a ++ toLowerCase b.
Proof. apply map_app. Qed.

Lemma startsWith_app_l (sub s b : jsstring) :
  startsWith s sub = true -> startsWith (s ++ b) sub = true.
Proof.
  revert s. induction sub as [|x sub IH]; intros s H; [reflexivity|].
  destruct s as [|y s]; [discriminate|].
  simpl in *. apply andb_prop in H. destruct H as [Hx Hs].
  now rewrite Hx, IH.
Qed.

Lemma includes_app_l (a b sub : jsstring) :
  includes a sub = true -> includes (a ++ b) sub = true.
Proof.
  induction a as [|c a IH]; intro H.
  - simpl in H. rewrite orb_false_r in H. destruct sub; [|discriminate].
    destruct b; reflexivity.
  - change (startsWith (c :: a) sub || includes a sub = true) in H.
    change (startsWith ((c :: a) ++ b) sub || includes (a ++ b) sub = true).
    apply orb_prop in H. apply orb_true_iff.
    destruct H as [H|H]; [left; now apply startsWith_app_l|right; now apply IH].
Qed.

(** The status of a [File not found] error: 404 unless the lowered message
    contains one of the phrases tested first, and then 400. *)
Lemma file_not_found_status (t : jsstring) :
  mapGitHubErrorToStatus (Error (lit "File not found: " ++ t))
  = if existsb (includes (toLowerCase (lit "File not found: " ++ t))) invalidInputPhrases
    then 400 else 404.
Proof.
  unfold mapGitHubErrorToStatus, invalidInputPhrases. cbn [map existsb].
  rewrite orb_false_r, !orb_assoc.
  destruct (_ || _ || _ || _ || _); [reflexivity|].
  rewrite toLowerCase_app, includes_app_l; reflexivity.
Qed.

(** C3, on the code: the file [Invalid URL.md] is not in the archive, the
    pipeline rejects with [File not found: Invalid URL.md], and the status
    computed for that error is 400, not 404: the message contains
    [invalid url], which [mapGitHubErrorToStatus] tests before
    [file not found]. *)
Theorem missing_file_answered_400 :
  let params :=
    mkParams (lit "github.com/o/r") None None None (Some (lit "Invalid URL.md")) None in
  result (processGitHubRepository (Sample.onMain Sample.files) params None)
  = inl (Error (lit "File not found: Invalid URL.md"))
  /\ mapGitHubErrorToStatus (Error (lit "File not found: Invalid URL.md")) = 400
  /\ mapGitHubErrorToStatus (Error (lit "File not found: src/missing.ts")) = 404.
Proof. vm_compute. repeat split. Qed.

(* ================================================================== *)
(** ** Branch fallback *)

Section Fallback.

Variable P : Platform.
Variables owner_ repo_ branch_ : jsstring.
Variable token : option jsstring.

Local Abbreviation req := (fun b => zipRequest owner_ repo_ b token).
Local Abbreviation attempt := (fun b => fetch P (zipRequest owner_ repo_ b token)).
Local Abbreviation others := (filter (fun d => negb (jsstring_eqb branch_ d))).

(** The loop over the candidates: it asks for the candidates other than
    the requested branch, in order, up to the first that answers 2xx. *)
Lemma tryDefaultBranches_spec (candidates : list jsstring) :
  (exists tried d rest,
      others candidates = tried ++ d :: rest
      /\ Forall (fun t => ok (attempt t) = false) tried
      /\ ok (attempt d) = true
      /\ tryDefaultBranches P owner_ repo_ branch_ token candidates
         = (Some (d, attempt d), map req (tried ++ [d])))
  \/ (Forall (fun t => ok (attempt t) = false) (others candidates)
      /\ tryDefaultBranches P owner_ repo_ branch_ token candidates
         = (None, map req (others candidates))).
Proof.
  induction candidates as [|c candidates IH]; [right; split; [constructor|reflexivity]|].
  cbn [tryDefaultBranches]. unfold others in *. cbn [filter].
  destruct (jsstring_eqb branch_ c); cbn [negb]; [exact IH|].
  unfold fetchZip. fold (req c). fold (attempt c).
  destruct (ok (attempt c)) eqn:Hok.
  - left. exists [], c, (filter (fun d => negb (jsstring_eqb branch_ d)) candidates).
    repeat split; [constructor|exact Hok].
  - destruct IH as [[tried [d [rest [Hsplit [Hfail [Hd Heq]]]]]]|[Hfail Heq]].
    + left. exists (c :: tried), d, rest. rewrite Hsplit, Heq.
      repeat split; [now constructor|exact Hd].
    + right. rewrite Heq. split; [now constructor|reflexivity].
Qed.

End Fallback.

(** C2. When the first request, for the requested branch, is answered
    outside 200-299, the fetcher asks for the fallback branches [main] then
    [master], leaving out the one equal to the requested branch, one at a
    time; the first that answers 2xx becomes the effective branch (the root
    prefix of the scan is built from it) and is the last request sent; when
    none does, the call rejects with the
    [GitHubFetchError] of the status and status text of the first answer. *)
Theorem branch_fallback
    (P : Platform) (params : Params) (token : option jsstring) (r : Resolved) :
  resolve P params = inr r ->
  let req b := zipRequest (owner r) (repo r) b token in
  let attempt b := fetch P (req b) in
  let fallbacks := filter (fun d => negb (jsstring_eqb (branch r) d)) [lit "main"; lit "master"] in
  ok (attempt (branch r)) = false ->
  (exists tried d rest,
      fallbacks = tried ++ d :: rest
      /\ Forall (fun t => ok (attempt t) = false) tried
      /\ ok (attempt d) = true
      /\ fetchWithFallback P (owner r) (repo r) (branch r) token
         = (inr (d, attempt d), map req (branch r :: tried ++ [d]))
      /\ requests (processGitHubRepository P params token)
         = map req (branch r :: tried ++ [d])
      /\ forall files,
          JSZip_loadAsync P (body (attempt d)) = inr files ->
          result (processGitHubRepository P params token)
          = render r (scan r (rootPrefixOf (repo r) d) files))
  \/ (Forall (fun t => ok (attempt t) = false) fallbacks
      /\ processGitHubRepository P params token
         = mkOutcome
             (inl (GitHubFetchError (status (attempt (branch r)))
                     (statusText (attempt (branch r)))))
             (map req (branch r :: fallbacks)) []).
Proof.
  intros Hr req attempt fallbacks Hfirst.
  assert (Hfetch : fetchWithFallback P (owner r) (repo r) (branch r) token
                   = match tryDefaultBranches P (owner r) (repo r) (branch r) token
                             defaultBranches with
                     | (Some found, sent') => (inr found, [req (branch r)] ++ sent')
                     | (None, sent') =>
                         (inl (GitHubFetchError (status (attempt (branch r)))
                                 (statusText (attempt (branch r)))),
                          [req (branch r)] ++ sent')
                     end).
  { unfold fetchWithFallback, fetchZip. fold (req (branch r)). fold (attempt (branch r)).
    now rewrite Hfirst. }
  destruct (tryDefaultBranches_spec P (owner r) (repo r) (branch r) token defaultBranches)
    as [[tried [d [rest [Hsplit [Hfail [Hd Heq]]]]]]|[Hfail Heq]].
  - left. exists tried, d, rest.
    rewrite Heq in Hfetch.
    split; [exact Hsplit|]. split; [exact Hfail|]. split; [exact Hd|].
    split; [exact Hfetch|]. split.
    + unfold processGitHubRepository. rewrite Hr, Hfetch.
      match goal with
      | |- context [JSZip_loadAsync P ?x] => destruct (JSZip_loadAsync P x)
      end; reflexivity.
    + intros files Hz.
      now rewrite (processGitHubRepository_loaded P params token r d _ _ files Hr Hfetch Hz).
  - right. split; [exact Hfail|].
    rewrite Heq in Hfetch.
    unfold processGitHubRepository. now rewrite Hr, Hfetch.
Qed.

(** Witness of C2: [feature-x] is unknown to a server that has [main] and
    [master]; the effective branch is [main] and [master] is never asked. *)
Lemma branch_fallback_witness :
  let P := Demo.platform [(Demo.zipUrl "o" "r" "main", Demo.okResponse Sample.files);
                          (Demo.zipUrl "o" "r" "master", Demo.okResponse Sample.files)] in
  let params := mkParams (lit "github.com/o/r") None None (Some (lit "feature-x")) None None in
  let req b := zipRequest (lit "o") (lit "r") b None in
  fetchWithFallback P (lit "o") (lit "r") (lit "feature-x") None
  = (inr (lit "main", Demo.okResponse Sample.files), [req (lit "feature-x"); req (lit "main")])
  /\ ((exists tried d rest,
          [lit "main"; lit "master"] = tried ++ d :: rest
          /\ Forall (fun t => ok (fetch P (req t)) = false) tried
          /\ ok (fetch P (req d)) = true
          /\ fetchWithFallback P (lit "o") (lit "r") (lit "feature-x") None
             = (inr (d, fetch P (req d)), map req (lit "feature-x" :: tried ++ [d]))
          /\ requests (processGitHubRepository P params None)
             = map req (lit "feature-x" :: tried ++ [d])
          /\ forall files,
              JSZip_loadAsync P (body (fetch P (req d))) = inr files ->
              result (processGitHubRepository P params None)
              = render (mkResolved (lit "o") (lit "r") (lit "feature-x") [] [] None false)
                  (scan (mkResolved (lit "o") (lit "r") (lit "feature-x") [] [] None false)
                     (rootPrefixOf (lit "r") d) files))
      \/ (Forall (fun t => ok (fetch P (req t)) = false) [lit "main"; lit "master"]
          /\ processGitHubRepository P params None
             = mkOutcome (inl (GitHubFetchError 404 (lit "Not Found")))
                 (map req [lit "feature-x"; lit "main"; lit "master"]) [])).
Proof.
  split; [reflexivity|].
  exact (branch_fallback
           (Demo.platform [(Demo.zipUrl "o" "r" "main", Demo.okResponse Sample.files);
                           (Demo.zipUrl "o" "r" "master", Demo.okResponse Sample.files)])
           (mkParams (lit "github.com/o/r") None None (Some (lit "feature-x")) None None)
           None
           (mkResolved (lit "o") (lit "r") (lit "feature-x") [] [] None false)
           eq_refl eq_refl).
Defined.

(* ================================================================== *)
(** ** The resolver *)

Lemma resolve_cases (P : Platform) (params : Params) :
  match new_URL P (givenUrl (param_url params)) with
  | inl msg => resolve P params = inl (Error (lit "Invalid URL: " ++ msg))
  | inr pathname =>
      if (List.length (segmentsOf pathname) <? 2)%nat
      then resolve P params = inl (Error (lit "Invalid GitHub repository URL format"))
      else exists r, resolve P params = inr r
  end.
Proof.
  unfold resolve, givenUrl, segmentsOf.
  destruct (new_URL P _) as [msg|pathname]; [reflexivity|].
  destruct (Nat.ltb (List.length (filter truthy (split 47 pathname))) 2); [reflexivity|].
  destruct (pathEmbedded _) as [[pathBranch pathTargetDirs] pathTargetFile].
  eexists. reflexivity.
Qed.

(** C9, as the code has it. The raw url is handed to [new URL] as it is
    when it starts with [http], and after [https://] otherwise. Resolution
    fails exactly when that string does not parse or when its path has fewer
    than two non-empty segments; the failure is an [InvalidInput] error, its
    status is 400, and the call rejects with it before any request is sent. *)
Theorem resolve_fails_iff_invalid_input
    (P : Platform) (params : Params) (token : option jsstring) :
  ((exists e, resolve P params = inl e)
   <-> (exists msg, new_URL P (givenUrl (param_url params)) = inl msg)
       \/ (exists pathname,
              new_URL P (givenUrl (param_url params)) = inr pathname
              /\ (List.length (segmentsOf pathname) < 2)%nat))
  /\ (forall e, resolve P params = inl e ->
        isInvalidInput e
        /\ mapGitHubErrorToStatus e = 400
        /\ processGitHubRepository P params token = mkOutcome (inl e) [] []).
Proof.
  pose proof (resolve_cases P params) as H.
  destruct (new_URL P (givenUrl (param_url params))) as [msg|pathname] eqn:Hu.
  - split.
    + split; [intros _; left; now exists msg|intros _; eexists; exact H].
    + intros e He. rewrite H in He.
      assert (E : e = Error (lit "Invalid URL: " ++ msg)) by congruence. subst e.
      split; [left; now exists msg|]. split.
      * unfold mapGitHubErrorToStatus.
        rewrite toLowerCase_app.
        rewrite (includes_app_l (toLowerCase (lit "Invalid URL: ")) (toLowerCase msg)
                   (lit "invalid url") eq_refl).
        reflexivity.
      * unfold processGitHubRepository. now rewrite H.
  - destruct (List.length (segmentsOf pathname) <? 2)%nat eqn:Hlen.
    + apply Nat.ltb_lt in Hlen. split.
      * split; [intros _; right; exists pathname; now split|intros _; eexists; exact H].
      * intros e He. rewrite H in He.
        assert (E : e = Error (lit "Invalid GitHub repository URL format")) by congruence.
        subst e.
        split; [now right|]. split; [reflexivity|].
        unfold processGitHubRepository. now rewrite H.
    + apply Nat.ltb_ge in Hlen. destruct H as [r Hr]. split.
      * split.
        -- intros [e He]. congruence.
        -- intros [[msg Hm]|[p [Hp Hl]]]; [discriminate|].
           injection Hp as <-. lia.
      * intros e He. congruence.
Qed.

(** C9 as stated fails: [httpbin.org/a/b] has no scheme, and with
    [https://] before it parses to a path of two segments; but it starts
    with [http], so the code parses it as it is and rejects it. *)
Lemma url_starting_with_http_is_not_prefixed :
  let url := lit "httpbin.org/a/b" in
  hasScheme url = false
  /\ Demo.new_URL (lit "https://" ++ url) = inr (lit "/a/b")
  /\ segmentsOf (lit "/a/b") = [lit "a"; lit "b"]
  /\ Demo.new_URL url = inl (lit "Invalid URL")
  /\ resolve (Sample.onMain Sample.files) (mkParams url None None None None None)
     = inl (Error (lit "Invalid URL: Invalid URL")).
Proof. vm_compute. repeat split. Qed.

Lemma normalizeDir_spec (dirs : list jsstring) (entry : jsstring) :
  normalizeDir (hd [] dirs) entry = normalizedEntry (hd_error dirs) entry.
Proof.
  unfold normalizeDir, normalizedEntry, withTrailingSlash.
  destruct dirs as [|b dirs]; [reflexivity|].
  cbn [hd hd_error]. destruct b as [|c b]; [|reflexivity].
  reflexivity.
Qed.

(** C4, as the code has it. When the query [dir] has at least one
    non-empty entry after the split at commas and the trim, the final
    directory scope is exactly those entries, each without its leading
    slashes, with a trailing slash, and after the directory embedded in the
    path when there is one and the entry does not already start with it;
    the directory of the path is not otherwise part of the scope. *)
Theorem query_dirs_replace_path_scope
    (P : Platform) (params : Params) (pathname d : jsstring) (r : Resolved) :
  new_URL P (givenUrl (param_url params)) = inr pathname ->
  resolve P params = inr r ->
  param_dir params = Some d ->
  queryEntries d <> [] ->
  finalTargetDirs r = map (normalizedEntry (pathBaseDir pathname)) (queryEntries d).
Proof.
  intros Hu Hr Hd Hne. unfold resolve in Hr. fold (givenUrl (param_url params)) in Hr.
  rewrite Hu in Hr. fold (segmentsOf pathname) in Hr.
  destruct (List.length (segmentsOf pathname) <? 2)%nat; [discriminate|].
  unfold pathBaseDir.
  destruct (pathEmbedded (skipn 2 (segmentsOf pathname)))
    as [[pathBranch pathTargetDirs] pathTargetFile].
  injection Hr as <-. cbn [finalTargetDirs fst snd].
  rewrite Hd. cbn [queryDirsOf option_map]. fold (queryEntries d).
  destruct (queryEntries d) as [|q qs]; [congruence|].
  change (map (normalizeDir (hd [] pathTargetDirs)) (q :: qs)
          = map (normalizedEntry (hd_error pathTargetDirs)) (q :: qs)).
  apply map_ext. intro e. apply normalizeDir_spec.
Qed.

(** Witness of C4: [dir=docs, /lib/] under [/tree/main/src]. *)
Lemma query_dirs_replace_path_scope_witness :
  resolve (Sample.onMain Sample.files)
    (mkParams (lit "github.com/o/r/tree/main/src") (Some (lit "docs, /lib/"))
       None None None None)
  = inr (mkResolved (lit "o") (lit "r") (lit "main") [lit "src/docs/"; lit "src/lib/"]
           [] None false)
  /\ [lit "src/docs/"; lit "src/lib/"]
     = map (normalizedEntry (pathBaseDir (lit "/o/r/tree/main/src")))
         (queryEntries (lit "docs, /lib/")).
Proof.
  split; [reflexivity|].
  apply (query_dirs_replace_path_scope (Sample.onMain Sample.files)
           (mkParams (lit "github.com/o/r/tree/main/src") (Some (lit "docs, /lib/"))
              None None None None)
           (lit "/o/r/tree/main/src") (lit "docs, /lib/")
           (mkResolved (lit "o") (lit "r") (lit "main") [lit "src/docs/"; lit "src/lib/"]
              [] None false)).
  - reflexivity.
  - reflexivity.
  - reflexivity.
  - vm_compute. discriminate.
Defined.

(** C4 as stated fails: the parameter [dir=,] is not empty and has no
    entry, and the scope stays the directory of the path. *)
Lemma query_dir_without_entries_keeps_path_scope :
  truthy (lit ",") = true
  /\ queryEntries (lit ",") = []
  /\ pathBaseDir (lit "/o/r/tree/main/src") = Some (lit "src/")
  /\ resolve (Sample.onMain Sample.files)
       (mkParams (lit "github.com/o/r/tree/main/src") (Some (lit ",")) None None None None)
     = inr (mkResolved (lit "o") (lit "r") (lit "main") [lit "src/"] [] None false).
Proof. vm_compute. repeat split. Qed.

(* ================================================================== *)
(** ** The pipeline on the sample archive *)

(** [/tree/<branch>/<path>] gives the branch and one directory prefix. *)
Example resolve_tree_path :
  resolve (Sample.onMain Sample.files) (Demo.params "github.com/owner/repo/tree/b/a/b/c")
  = inr (mkResolved (lit "owner") (lit "repo") (lit "b") [lit "a/b/c/"] [] None false).
Proof. vm_compute. reflexivity. Qed.

(** [/blob/<branch>/<file>] gives the branch and the single-file target; a
    query [file] replaces it. *)
Example resolve_blob_path :
  resolve (Sample.onMain Sample.files) (Demo.params "github.com/owner/repo/blob/b/x/y.ts")
  = inr (mkResolved (lit "owner") (lit "repo") (lit "b") [] [] (Some (lit "x/y.ts")) false)
  /\ resolve (Sample.onMain Sample.files)
       (mkParams (lit "github.com/owner/repo/blob/b/x/y.ts") None None None
          (Some (lit "z.ts")) None)
     = inr (mkResolved (lit "owner") (lit "repo") (lit "b") [] [] (Some (lit "z.ts")) false).
Proof. vm_compute. split; reflexivity. Qed.

(** A query [file] is taken relative to the directory of the path, and
    extensions are lowered. *)
Example resolve_relative_file :
  resolve (Sample.onMain Sample.files)
    (mkParams (lit "https://github.com/owner/repo/tree/main/src") None (Some (lit "TS, tsx,"))
       None (Some (lit "/app.tsx")) (Some (lit "tree")))
  = inr (mkResolved (lit "owner") (lit "repo") (lit "main") [lit "src/"]
           [lit "ts"; lit "tsx"] (Some (lit "src/app.tsx")) true).
Proof. vm_compute. reflexivity. Qed.

(** Extra segments without [tree] or [blob] scope to a directory. *)
Example resolve_shorthand_scope :
  resolve (Sample.onMain Sample.files) (Demo.params "github.com/owner/repo/src/utils")
  = inr (mkResolved (lit "owner") (lit "repo") (lit "main") [lit "src/utils/"] [] None false).
Proof. vm_compute. reflexivity. Qed.

(** A URL with the owner alone, and a string [new URL] rejects. *)
Example resolve_rejects :
  resolve (Sample.onMain Sample.files) (Demo.params "https://github.com/owner")
  = inl (Error (lit "Invalid GitHub repository URL format"))
  /\ resolve (Sample.onMain Sample.files) (Demo.params "https:///")
     = inl (Error (lit "Invalid URL: Invalid URL"))
  /\ processGitHubRepository (Sample.onMain Sample.files) (Demo.params "github.com") None
     = mkOutcome (inl (Error (lit "Invalid GitHub repository URL format"))) [] [].
Proof. vm_compute. repeat split. Qed.

(** [main] is asked once: when it fails the only fallback is [master]. *)
Example main_falls_back_to_master :
  fetchWithFallback
    (Demo.platform [(Demo.zipUrl "o" "r" "master", Demo.okResponse Sample.files)])
    (lit "o") (lit "r") (lit "main") (Some (lit "t0ken"))
  = (inr (lit "master", Demo.okResponse Sample.files),
     [ mkRequest (Demo.zipUrl "o" "r" "main")
         [(lit "User-Agent", lit "Pera1-Bot"); (lit "Authorization", lit "Bearer t0ken")];
       mkRequest (Demo.zipUrl "o" "r" "master")
         [(lit "User-Agent", lit "Pera1-Bot"); (lit "Authorization", lit "Bearer t0ken")] ]).
Proof. vm_compute. reflexivity. Qed.

(** FULL mode on a directory of the sample archive. *)
Example full_mode_output :
  processGitHubRepository (Sample.onMain Sample.filesTs)
    (mkParams (lit "github.com/o/r") (Some (lit "src,docs")) None None None None) None
  = mkOutcome
      (inr (lit "# " ++ folderClosed ++ lit " File Tree" ++ [10; 10]
            ++ folderOpen ++ lit " docs" ++ [10]
            ++ lit "  " ++ page ++ lit " my-readme.md (0.00 KB)" ++ [10]
            ++ folderOpen ++ lit " src" ++ [10]
            ++ lit "  " ++ page ++ lit " a.ts (0.01 KB)" ++ [10]
            ++ [10] ++ lit "# " ++ memo ++ lit " Files (Total: 0.01 KB" ++ arrow
            ++ lit "0.01 KB)" ++ [10; 10]
            ++ lit "```src/a.ts" ++ [10] ++ lit "let a = 1;" ++ [10] ++ lit "```" ++ [10; 10]
            ++ lit "```docs/my-readme.md" ++ [10] ++ lit "notes" ++ [10] ++ lit "```"
            ++ [10; 10]))
      [zipRequest (lit "o") (lit "r") (lit "main") None]
      [lit "r-main/src/a.ts"; lit "r-main/docs/my-readme.md"].
Proof. vm_compute. reflexivity. Qed.

(** TREE mode on the sample archive: every file is listed, and the files
    whose path ends in [readme.md] are shown. *)
Example tree_mode_output :
  processGitHubRepository (Sample.onMain Sample.files)
    (mkParams (lit "github.com/o/r") None None None None (Some (lit "tree"))) None
  = mkOutcome
      (inr (lit "# Directory Structure" ++ [10; 10]
            ++ page ++ lit " README.md" ++ [10]
            ++ folderOpen ++ lit " dist" ++ [10]
            ++ lit "  " ++ page ++ lit " bundle.js" ++ [10]
            ++ folderOpen ++ lit " docs" ++ [10]
            ++ lit "  " ++ page ++ lit " my-readme.md" ++ [10]
            ++ page ++ lit " pnpm-lock.yaml" ++ [10]
            ++ folderOpen ++ lit " src" ++ [10]
            ++ lit "  " ++ page ++ lit " a.ts" ++ [10]
            ++ [10] ++ lit "# README Files" ++ [10; 10]
            ++ lit "## README.md" ++ [10; 10] ++ lit "# r" ++ [10; 10]
            ++ lit "## docs/my-readme.md" ++ [10; 10] ++ lit "notes" ++ [10; 10]))
      [zipRequest (lit "o") (lit "r") (lit "main") None]
      [lit "r-main/README.md"; lit "r-main/docs/my-readme.md"].
Proof. vm_compute. reflexivity. Qed.

(** An upstream 403 with no fallback left is answered 403: the status of
    the first response travels in the error. *)
Example fetch_error_status :
  let P := Demo.platform [(Demo.zipUrl "o" "r" "main", mkResponse 403 (lit "Forbidden") [])] in
  result (processGitHubRepository P (Demo.params "github.com/o/r") None)
  = inl (GitHubFetchError 403 (lit "Forbidden"))
  /\ mapGitHubErrorToStatus (GitHubFetchError 403 (lit "Forbidden")) = 403
  /\ message (GitHubFetchError 403 (lit "Forbidden"))
     = lit "Failed to fetch repository: 403 Forbidden".
Proof. vm_compute. repeat split. Qed.

(* ================================================================== *)
(** * Further properties of the code *)

(** ** The resolver: what every resolved request satisfies *)

Lemma endsWith_app_r (a b suffix : jsstring) :
  endsWith b suffix = true -> endsWith (a ++ b) suffix = true.
Proof.
  unfold endsWith. intro H. rewrite rev_app_distr. now apply startsWith_app_l.
Qed.

Lemma withTrailingSlash_ends (p : jsstring) :
  endsWith (withTrailingSlash p) (lit "/") = true.
Proof.
  unfold withTrailingSlash.
  destruct (endsWith p (lit "/")) eqn:E; [exact E|].
  apply endsWith_app_r. reflexivity.
Qed.

Lemma withTrailingSlash_truthy (p : jsstring) :
  truthy p = true -> truthy (withTrailingSlash p) = true.
Proof.
  unfold withTrailingSlash. intro H.
  destruct (endsWith p (lit "/")); [exact H|]. now destruct p.
Qed.

(** The directory scope embedded in a path: none, or one directory made of
    a non-empty path and a trailing slash; never next to a file target. *)
Lemma pathEmbedded_shape (pathSegments : list jsstring) :
  match pathEmbedded pathSegments with
  | (pathBranch, pathTargetDirs, pathTargetFile) =>
      (pathTargetDirs = []
       \/ exists p, truthy p = true /\ pathTargetDirs = [withTrailingSlash p]
                    /\ pathTargetFile = None)
      /\ (pathTargetFile <> None -> pathBranch <> None /\ pathTargetDirs = [])
  end.
Proof.
  unfold pathEmbedded.
  repeat match goal with
         | |- context [if ?b then _ else _] => destruct b eqn:?
         end;
    cbn [truthy_opt negb andb] in *; try discriminate;
    try match goal with
        | H : truthy ?x = true, H' : context [negb (truthy ?x)] |- _ =>
            rewrite H in H'; cbn [negb andb] in H';
            rewrite ?andb_false_r in H'; discriminate
        end;
    (split; [first [ left; reflexivity
                   | right; eexists; split; [eassumption|split; reflexivity] ]
            | intro Hf; first [ now elim Hf | split; [discriminate|reflexivity] ] ]).
Qed.

(** A resolved request, field by field. *)
Lemma resolve_inr (P : Platform) (params : Params) (r : Resolved) :
  resolve P params = inr r ->
  exists pathname pathBranch pathTargetDirs pathTargetFile,
    new_URL P (givenUrl (param_url params)) = inr pathname
    /\ (2 <= List.length (segmentsOf pathname))%nat
    /\ pathEmbedded (skipn 2 (segmentsOf pathname))
       = (pathBranch, pathTargetDirs, pathTargetFile)
    /\ owner r = nth 0 (segmentsOf pathname) []
    /\ repo r = nth 1 (segmentsOf pathname) []
    /\ finalTargetDirs r
       = match queryDirsOf (param_dir params) with
         | Some (q :: qs) => map (normalizeDir (hd [] pathTargetDirs)) (q :: qs)
         | _ => pathTargetDirs
         end
    /\ targetFile r
       = resolveTargetFile (hd [] pathTargetDirs) (param_file params) pathTargetFile.
Proof.
  intro Hr. unfold resolve in Hr. fold (givenUrl (param_url params)) in Hr.
  destruct (new_URL P (givenUrl (param_url params))) as [msg|pathname]; [discriminate|].
  fold (segmentsOf pathname) in Hr.
  destruct (Nat.ltb (List.length (segmentsOf pathname)) 2) eqn:Hlen; [discriminate|].
  apply Nat.ltb_ge in Hlen.
  destruct (pathEmbedded (skipn 2 (segmentsOf pathname)))
    as [[pathBranch pathTargetDirs] pathTargetFile] eqn:Hpath.
  exists pathname, pathBranch, pathTargetDirs, pathTargetFile.
  assert (E : r = mkResolved (nth 0 (segmentsOf pathname) []) (nth 1 (segmentsOf pathname) [])
                    (match or_else (or_else (param_branch params) pathBranch)
                             (Some (lit "main")) with
                     | Some b => b
                     | None => lit "main"
                     end)
                    (match queryDirsOf (param_dir params) with
                     | Some (q :: qs) => map (normalizeDir (hd [] pathTargetDirs)) (q :: qs)
                     | _ => if (0 <? List.length pathTargetDirs)%nat
                            then pathTargetDirs else []
                     end)
                    (match queryExtsOf (param_ext params) with Some es => es | None => [] end)
                    (resolveTargetFile (hd [] pathTargetDirs) (param_file params) pathTargetFile)
                    (match param_mode params with
                     | Some m => jsstring_eqb m (lit "tree")
                     | None => false
                     end)) by congruence.
  subst r. cbn [owner repo finalTargetDirs targetFile].
  repeat (split; [first [reflexivity | assumption]|]).
  destruct (queryDirsOf (param_dir params)) as [[|q qs]|]; try reflexivity;
    now destruct pathTargetDirs.
Qed.

Lemma startsWith_refl (s : jsstring) : startsWith s s = true.
Proof. rewrite <- (app_nil_r s) at 1. apply startsWith_app. Qed.

Lemma normalizeDir_shape (baseDir d : jsstring) :
  endsWith (normalizeDir baseDir d) (lit "/") = true
  /\ startsWith (normalizeDir baseDir d) baseDir = true.
Proof.
  unfold normalizeDir.
  set (withSlash := if endsWith (stripLeadingSlashes d) (lit "/")
                    then stripLeadingSlashes d else stripLeadingSlashes d ++ lit "/").
  assert (Hs : endsWith withSlash (lit "/") = true)
    by apply (withTrailingSlash_ends (stripLeadingSlashes d)).
  destruct baseDir as [|c baseDir]; cbn [truthy negb]; [now split|].
  destruct (startsWith withSlash (c :: baseDir)) eqn:E; [now split|].
  split; [now apply endsWith_app_r|apply startsWith_app].
Qed.

(** X1. Query parameters stay inside the path selection. Every directory
    of a resolved scope ends with a slash, and when the path of the URL
    embeds a directory, every directory of the scope and a file target given
    by the query lie under that directory. *)
Theorem query_scope_stays_under_path_directory
    (P : Platform) (params : Params) (pathname : jsstring) (r : Resolved) :
  new_URL P (givenUrl (param_url params)) = inr pathname ->
  resolve P params = inr r ->
  Forall (fun d => endsWith d (lit "/") = true
                   /\ forall b, pathBaseDir pathname = Some b -> startsWith d b = true)
         (finalTargetDirs r)
  /\ forall q b,
      param_file params = Some q -> truthy q = true ->
      pathBaseDir pathname = Some b ->
      exists t, targetFile r = Some t /\ startsWith t b = true.
Proof.
  intros Hu Hr.
  destruct (resolve_inr P params r Hr)
    as [pathname' [pb [dirs [pf [Hu' [_ [Hpath [_ [_ [Hdirs Hfile]]]]]]]]]].
  assert (pathname' = pathname) by congruence. subst pathname'.
  unfold pathBaseDir. rewrite Hpath. cbn [fst snd].
  pose proof (pathEmbedded_shape (skipn 2 (segmentsOf pathname))) as Hshape.
  rewrite Hpath in Hshape. destruct Hshape as [Hshape _].
  split.
  - rewrite Hdirs.
    destruct (queryDirsOf (param_dir params)) as [[|q qs]|].
    + destruct Hshape as [->|[p [_ [-> _]]]]; [constructor|].
      constructor; [|constructor].
      split; [apply withTrailingSlash_ends|].
      intros b Hb. injection Hb as <-. apply startsWith_refl.
    + apply Forall_forall. intros d Hd. apply in_map_iff in Hd.
      destruct Hd as [e [<- _]].
      destruct (normalizeDir_shape (hd [] dirs) e) as [He Hb].
      split; [exact He|]. intros b Hbase.
      destruct dirs as [|b' dirs']; [discriminate|].
      injection Hbase as <-. exact Hb.
    + destruct Hshape as [->|[p [_ [-> _]]]]; [constructor|].
      constructor; [|constructor].
      split; [apply withTrailingSlash_ends|].
      intros b Hb. injection Hb as <-. apply startsWith_refl.
  - intros q b Hq Htq Hbase. rewrite Hfile, Hq. unfold resolveTargetFile. rewrite Htq.
    destruct dirs as [|b' dirs']; [discriminate|]. injection Hbase as <-.
    cbn [hd].
    set (normalized := if startsWith q (lit "/") then slice_from 1 q else q).
    destruct (truthy b') eqn:Hb'.
    + destruct (startsWith normalized b') eqn:E; cbn [negb andb].
      * exists normalized. now split.
      * exists (b' ++ normalized). split; [reflexivity|apply startsWith_app].
    + cbn [andb]. exists normalized. split; [reflexivity|]. now destruct b'.
Qed.

(** Witness of X1: [dir=/lib] and [file=app.tsx] under [/tree/main/src]. *)
Lemma query_scope_stays_under_path_directory_witness :
  Forall (fun d => endsWith d (lit "/") = true
                   /\ forall b, pathBaseDir (lit "/o/r/tree/main/src") = Some b ->
                                startsWith d b = true)
         [lit "src/lib/"]
  /\ forall q b,
      Some (lit "app.tsx") = Some q -> truthy q = true ->
      pathBaseDir (lit "/o/r/tree/main/src") = Some b ->
      exists t, Some (lit "src/app.tsx") = Some t /\ startsWith t b = true.
Proof.
  exact (query_scope_stays_under_path_directory (Sample.onMain Sample.files)
           (mkParams (lit "github.com/o/r/tree/main/src") (Some (lit "/lib")) None None
              (Some (lit "app.tsx")) None)
           (lit "/o/r/tree/main/src")
           (mkResolved (lit "o") (lit "r") (lit "main") [lit "src/lib/"] []
              (Some (lit "src/app.tsx")) false)
           eq_refl eq_refl).
Defined.

(** X2. The path of a URL gives a directory scope or a file target, never
    both: without [dir] and [file] in the query, a resolved request has at
    most one directory, and none when it has a file target. *)
Theorem path_scope_is_directory_or_file
    (P : Platform) (params : Params) (r : Resolved) :
  resolve P params = inr r ->
  param_dir params = None ->
  param_file params = None ->
  (List.length (finalTargetDirs r) <= 1)%nat
  /\ (targetFile r <> None -> finalTargetDirs r = []).
Proof.
  intros Hr Hd Hf.
  destruct (resolve_inr P params r Hr)
    as [pathname [pb [dirs [pf [_ [_ [Hpath [_ [_ [Hdirs Hfile]]]]]]]]]].
  rewrite Hd in Hdirs. cbn [queryDirsOf option_map] in Hdirs.
  rewrite Hf in Hfile. cbn [resolveTargetFile] in Hfile.
  rewrite Hdirs, Hfile.
  pose proof (pathEmbedded_shape (skipn 2 (segmentsOf pathname))) as Hshape.
  rewrite Hpath in Hshape. destruct Hshape as [Hshape Hfile'].
  split.
  - destruct Hshape as [->|[p [_ [-> _]]]]; simpl; lia.
  - intro H. now apply Hfile'.
Qed.

(** Witness of X2: a [/blob/] URL. *)
Lemma path_scope_is_directory_or_file_witness :
  (List.length (@nil jsstring) <= 1)%nat
  /\ (Some (lit "x/y.ts") <> None -> @nil jsstring = []).
Proof.
  exact (path_scope_is_directory_or_file (Sample.onMain Sample.files)
           (Demo.params "github.com/owner/repo/blob/b/x/y.ts")
           (mkResolved (lit "owner") (lit "repo") (lit "b") [] [] (Some (lit "x/y.ts")) false)
           eq_refl eq_refl eq_refl).
Defined.

Lemma split_no_sep (sep : code_unit) (s : jsstring) :
  Forall (fun w => ~ In sep w) (split sep s).
Proof.
  induction s as [|c s IH]; cbn [split].
  - constructor; [intros []|constructor].
  - destruct (c =? sep) eqn:E.
    + constructor; [intros []|exact IH].
    + apply N.eqb_neq in E.
      destruct (split sep s) as [|w ws]; [constructor; [|constructor]|].
      * intros [H|[]]. congruence.
      * inversion IH as [|? ? Hw Hws]; subst.
        constructor; [|exact Hws]. intros [H|H]; [congruence|now apply Hw].
Qed.

Lemma segmentsOf_shape (pathname : jsstring) :
  Forall (fun w => truthy w = true /\ ~ In 47 w) (segmentsOf pathname).
Proof.
  unfold segmentsOf. apply Forall_forall. intros w Hw.
  apply filter_In in Hw. destruct Hw as [Hin Ht].
  split; [exact Ht|].
  exact (proj1 (Forall_forall _ _) (split_no_sep 47 pathname) w Hin).
Qed.

(** X3. The owner and the repository of a resolved request are non-empty
    and hold no slash, so each is one segment of the download URL
    [https://codeload.github.com/<owner>/<repo>/zip/<branch>]. *)
Theorem owner_and_repo_are_segments (P : Platform) (params : Params) (r : Resolved) :
  resolve P params = inr r ->
  (truthy (owner r) = true /\ ~ In 47 (owner r))
  /\ (truthy (repo r) = true /\ ~ In 47 (repo r)).
Proof.
  intro Hr.
  destruct (resolve_inr P params r Hr)
    as [pathname [pb [dirs [pf [_ [Hlen [_ [Ho [Hrepo _]]]]]]]]].
  pose proof (segmentsOf_shape pathname) as Hshape.
  rewrite Forall_forall in Hshape.
  rewrite Ho, Hrepo.
  split; apply Hshape; apply nth_In; lia.
Qed.

(** Witness of X3 on [github.com/o/r]. *)
Lemma owner_and_repo_are_segments_witness :
  (truthy (lit "o") = true /\ ~ In 47 (lit "o"))
  /\ (truthy (lit "r") = true /\ ~ In 47 (lit "r")).
Proof.
  exact (owner_and_repo_are_segments (Sample.onMain Sample.files)
           (Demo.params "github.com/o/r") Sample.full eq_refl).
Defined.

(* ================================================================== *)
(** ** The fetcher: how many requests, to where, and what comes back *)

Lemma zipRequest_inj (o rp b b' : jsstring) (token : option jsstring) :
  zipRequest o rp b token = zipRequest o rp b' token -> b = b'.
Proof.
  unfold zipRequest. intro H. injection H as H.
  apply app_inv_head in H. injection H as H.
  apply app_inv_head in H. now injection H.
Qed.

Lemma requests_of_process (P : Platform) (params : Params) (token : option jsstring)
    (r : Resolved) :
  resolve P params = inr r ->
  requests (processGitHubRepository P params token)
  = snd (fetchWithFallback P (owner r) (repo r) (branch r) token).
Proof.
  intro Hr. unfold processGitHubRepository. rewrite Hr.
  destruct (fetchWithFallback P (owner r) (repo r) (branch r) token)
    as [[e|[b resp]] sent]; [reflexivity|].
  destruct (JSZip_loadAsync P (body resp)); reflexivity.
Qed.

Lemma In_removelast' {A} (l : list A) (x : A) : In x (removelast l) -> In x l.
Proof.
  induction l as [|y l IH]; [intros []|].
  destruct l as [|z l]; [intros []|].
  intros [<-|H]; [now left|right; now apply IH].
Qed.

Lemma last_In' {A} (x d : A) (l : list A) : In (last (x :: l) d) (x :: l).
Proof.
  revert x. induction l as [|y l IH]; intro x; [now left|].
  right. apply IH.
Qed.

(** Every run of the fetcher, whatever the first answer: the requested
    branch, then a prefix of the fallback branches other than it; all but
    the last request were answered outside 2xx, and the last decides. *)
Lemma fetchWithFallback_run (P : Platform) (o rp b : jsstring) (token : option jsstring) :
  let req := fun x => zipRequest o rp x token in
  let attempt := fun x => fetch P (req x) in
  exists tried rest,
    filter (fun d => negb (jsstring_eqb b d)) defaultBranches = tried ++ rest
    /\ snd (fetchWithFallback P o rp b token) = map req (b :: tried)
    /\ Forall (fun x => ok (attempt x) = false) (removelast (b :: tried))
    /\ match fst (fetchWithFallback P o rp b token) with
       | inr (b', resp) =>
           b' = last (b :: tried) b /\ resp = attempt b' /\ ok resp = true
       | inl e =>
           e = GitHubFetchError (status (attempt b)) (statusText (attempt b))
           /\ rest = [] /\ ok (attempt (last (b :: tried) b)) = false
       end.
Proof.
  intros req attempt.
  unfold fetchWithFallback, fetchZip. fold (req b). fold (attempt b).
  destruct (ok (attempt b)) eqn:Hfirst; cbn [negb].
  - exists [], (filter (fun d => negb (jsstring_eqb b d)) defaultBranches).
    cbn [fst snd app map removelast last]. repeat split; [constructor|exact Hfirst].
  - destruct (tryDefaultBranches_spec P o rp b token defaultBranches)
      as [[tried [d [rest [Hsplit [Hfail [Hd Heq]]]]]]|[Hfail Heq]]; rewrite Heq.
    + exists (tried ++ [d]), rest. cbn [fst snd].
      split; [now rewrite <- app_assoc|]. split; [reflexivity|].
      rewrite app_comm_cons, removelast_last, last_last.
      split; [now constructor|]. now repeat split.
    + exists (filter (fun d => negb (jsstring_eqb b d)) defaultBranches), [].
      cbn [fst snd]. split; [now rewrite app_nil_r|]. split; [reflexivity|].
      assert (Hall : Forall (fun x => ok (attempt x) = false)
                       (b :: filter (fun d => negb (jsstring_eqb b d)) defaultBranches))
        by now constructor.
      rewrite Forall_forall in Hall.
      split; [|split; [reflexivity|split; [reflexivity|]]].
      * apply Forall_forall. intros x Hx. apply Hall. now apply In_removelast'.
      * apply Hall. apply last_In'.
Qed.

Lemma NoDup_map_inj {A B} (f : A -> B) (l : list A) :
  (forall x y, f x = f y -> x = y) -> NoDup l -> NoDup (map f l).
Proof.
  intros Hinj Hnd. induction Hnd as [|x l Hx Hnd IH]; [constructor|].
  cbn [map]. constructor; [|exact IH].
  intro H. apply in_map_iff in H. destruct H as [y [Hy Hin]].
  apply Hinj in Hy. now subst y.
Qed.

Lemma NoDup_app_l {A} (l1 l2 : list A) : NoDup (l1 ++ l2) -> NoDup l1.
Proof.
  induction l1 as [|x l1 IH]; [constructor|].
  cbn [app]. intro H. inversion H as [|? ? Hx Hnd]; subst.
  constructor; [|now apply IH].
  intro Hin. apply Hx. apply in_or_app. now left.
Qed.

(** X4. A call sends at least one and at most three requests, the first
    for the resolved branch and the others for [main] or [master]; no two
    of them go to the same URL, and all carry the same headers. *)
Theorem at_most_three_distinct_requests
    (P : Platform) (params : Params) (token : option jsstring) (r : Resolved) :
  resolve P params = inr r ->
  let reqs := requests (processGitHubRepository P params token) in
  (1 <= List.length reqs <= 3)%nat
  /\ NoDup reqs
  /\ hd_error reqs = Some (zipRequest (owner r) (repo r) (branch r) token)
  /\ Forall (fun q => exists b, In b (branch r :: defaultBranches)
                                /\ q = zipRequest (owner r) (repo r) b token)
            reqs.
Proof.
  intros Hr reqs. unfold reqs. rewrite (requests_of_process P params token r Hr).
  destruct (fetchWithFallback_run P (owner r) (repo r) (branch r) token)
    as [tried [rest [Hsplit [Hsent _]]]].
  rewrite Hsent. clear Hsent.
  set (others := filter (fun d => negb (jsstring_eqb (branch r) d)) defaultBranches) in *.
  assert (Hlen : (List.length tried <= 2)%nat).
  { assert (H : (List.length others <= List.length defaultBranches)%nat)
      by apply filter_length_le.
    rewrite Hsplit, length_app in H. cbn in H. lia. }
  assert (Hin : forall x, In x tried -> In x defaultBranches /\ x <> branch r).
  { intros x Hx.
    assert (Hx' : In x others) by (rewrite Hsplit; apply in_or_app; now left).
    apply filter_In in Hx'. destruct Hx' as [Hd Hne]. split; [exact Hd|].
    intro E. subst x. now rewrite jsstring_eqb_refl in Hne. }
  assert (Hnd : NoDup tried).
  { apply (NoDup_app_l tried rest). rewrite <- Hsplit. apply NoDup_filter.
    unfold defaultBranches. constructor; [intros [H|[]]; discriminate|].
    constructor; [intros []|constructor]. }
  cbn [map List.length hd_error].
  split; [rewrite length_map; lia|].
  split; [|split; [reflexivity|]].
  - change (NoDup (map (fun x => zipRequest (owner r) (repo r) x token) (branch r :: tried))).
    apply NoDup_map_inj; [intros x y; apply zipRequest_inj|].
    constructor; [|exact Hnd]. intro H. now apply Hin in H.
  - constructor; [exists (branch r); split; [now left|reflexivity]|].
    apply Forall_forall. intros q Hq. apply in_map_iff in Hq.
    destruct Hq as [x [<- Hx]]. exists x. split; [right; now apply Hin|reflexivity].
Qed.

(** Witness of X4: two requests for [feature-x] on a server that has [main]. *)
Lemma at_most_three_distinct_requests_witness :
  let params := mkParams (lit "github.com/o/r") None None (Some (lit "feature-x")) None None in
  let reqs := requests (processGitHubRepository (Sample.onMain Sample.files) params None) in
  (1 <= List.length reqs <= 3)%nat
  /\ NoDup reqs
  /\ hd_error reqs = Some (zipRequest (lit "o") (lit "r") (lit "feature-x") None)
  /\ Forall (fun q => exists b, In b (lit "feature-x" :: defaultBranches)
                                /\ q = zipRequest (lit "o") (lit "r") b None)
            reqs.
Proof.
  exact (at_most_three_distinct_requests (Sample.onMain Sample.files)
           (mkParams (lit "github.com/o/r") None None (Some (lit "feature-x")) None None)
           None
           (mkResolved (lit "o") (lit "r") (lit "feature-x") [] [] None false)
           eq_refl).
Defined.

Lemma Forall_map' {A B} (f : A -> B) (Q : B -> Prop) (l : list A) :
  Forall (fun x => Q (f x)) l -> Forall Q (map f l).
Proof. induction 1; cbn [map]; now constructor. Qed.

Lemma last_map' {A B} (f : A -> B) (l : list A) (d : A) :
  last (map f l) (f d) = f (last l d).
Proof.
  induction l as [|x l IH]; [reflexivity|].
  destruct l as [|y l]; [reflexivity|]. exact IH.
Qed.

Lemma removelast_map' {A B} (f : A -> B) (l : list A) :
  removelast (map f l) = map f (removelast l).
Proof.
  induction l as [|x l IH]; [reflexivity|].
  destruct l as [|y l]; [reflexivity|].
  change (f x :: removelast (map f (y :: l)) = f x :: map f (removelast (y :: l))).
  now rewrite IH.
Qed.

(** X5. What the fetcher hands on. A response it returns is 2xx and is the
    answer to the last request sent, for the branch it returns; every
    request before it was answered outside 2xx; and when the first answer is
    2xx nothing else is asked. When it fails, every request it sent was
    answered outside 2xx, and both fallbacks other than the requested branch
    were asked. *)
Theorem fetcher_returns_the_last_answer
    (P : Platform) (o rp b : jsstring) (token : option jsstring) :
  let req := fun x => zipRequest o rp x token in
  match fetchWithFallback P o rp b token with
  | (inr (b', resp), sent) =>
      ok resp = true
      /\ resp = fetch P (req b')
      /\ last sent (req b) = req b'
      /\ Forall (fun q => ok (fetch P q) = false) (removelast sent)
      /\ (ok (fetch P (req b)) = true -> b' = b /\ sent = [req b])
  | (inl e, sent) =>
      Forall (fun q => ok (fetch P q) = false) sent
      /\ sent = map req (b :: filter (fun d => negb (jsstring_eqb b d)) defaultBranches)
  end.
Proof.
  intro req.
  pose proof (fetchWithFallback_run P o rp b token) as Hrun. cbv zeta in Hrun.
  destruct Hrun as [tried [rest [Hsplit [Hsent [Hbefore Hlast]]]]].
  assert (Hfirst : ok (fetch P (req b)) = true ->
                   fetchWithFallback P o rp b token = (inr (b, fetch P (req b)), [req b])).
  { intro H. unfold fetchWithFallback, fetchZip. fold (req b). now rewrite H. }
  destruct (fetchWithFallback P o rp b token) as [[e|[b' resp]] sent];
    cbn [fst snd] in *; subst sent.
  - destruct Hlast as [_ [-> Hl]]. rewrite app_nil_r in Hsplit. rewrite Hsplit.
    split; [|reflexivity].
    apply (Forall_map' req (fun q => ok (fetch P q) = false)).
    rewrite (app_removelast_last b (l := b :: tried)) by discriminate.
    apply Forall_app. split; [exact Hbefore|]. now constructor.
  - destruct Hlast as [Hb' [Hresp Hok]].
    split; [exact Hok|]. split; [exact Hresp|].
    split; [|split].
    + rewrite (last_map' req), <- Hb'. reflexivity.
    + rewrite removelast_map'.
      now apply (Forall_map' req (fun q => ok (fetch P q) = false)).
    + intro H. apply Hfirst in H. injection H as -> _ H.
      destruct tried; [now split|discriminate].
Qed.

(* ================================================================== *)
(** ** The scan: what [fileTree] holds, in which order, and the totals *)

Lemma Map_get_None_keys {V} (m : Map V) (k : jsstring) :
  Map_get m k = None <-> ~ In k (map fst m).
Proof.
  induction m as [|[k' v] m IH]; cbn [Map_get map fst In]; [tauto|].
  destruct (jsstring_eqb k' k) eqn:E.
  - apply jsstring_eqb_eq in E. split; [discriminate|]. intro H. elim H. now left.
  - rewrite IH. split.
    + intros H [Hk|Hk]; [|now apply H].
      subst k'. now rewrite jsstring_eqb_refl in E.
    + intros H Hk. apply H. now right.
Qed.

Lemma Map_set_absent {V} (m : Map V) (k : jsstring) (v : V) :
  Map_get m k = None -> Map_set m k v = m ++ [(k, v)].
Proof.
  induction m as [|[k' v'] m IH]; cbn [Map_get Map_set app]; [reflexivity|].
  destruct (jsstring_eqb k' k); [discriminate|].
  intro H. now rewrite IH.
Qed.

Lemma Map_set_keys {V} (m : Map V) (k : jsstring) (v : V) :
  map fst (Map_set m k v)
  = match Map_get m k with Some _ => map fst m | None => map fst m ++ [k] end.
Proof.
  induction m as [|[k' v'] m IH]; cbn [Map_get Map_set map fst app]; [reflexivity|].
  destruct (jsstring_eqb k' k) eqn:E; cbn [map fst]; [reflexivity|].
  rewrite IH. now destruct (Map_get m k).
Qed.

Lemma Map_get_In {V} (m : Map V) (k : jsstring) (v : V) :
  Map_get m k = Some v -> In (k, v) m.
Proof.
  induction m as [|[k' v'] m IH]; cbn [Map_get]; [discriminate|].
  destruct (jsstring_eqb k' k) eqn:E.
  - apply jsstring_eqb_eq in E. intro H. injection H as ->. subst. now left.
  - intro H. right. now apply IH.
Qed.

Lemma In_Map_get {V} (m : Map V) (k : jsstring) (v : V) :
  NoDup (map fst m) -> In (k, v) m -> Map_get m k = Some v.
Proof.
  induction m as [|[k' v'] m IH]; intros Hnd Hin; [destruct Hin|].
  cbn [map fst] in Hnd. inversion Hnd as [|? ? Hk' Hnd']; subst.
  cbn [Map_get]. destruct Hin as [E|Hin].
  - injection E as -> ->. now rewrite jsstring_eqb_refl.
  - destruct (jsstring_eqb k' k) eqn:E; [|now apply IH].
    apply jsstring_eqb_eq in E. subst k'. elim Hk'.
    apply in_map_iff. now exists (k, v).
Qed.

Section ScanFacts.

Variable r : Resolved.
Variable rootPrefix : jsstring.
Variable hasTsConfig : bool.

Local Abbreviation step := (scanStep r rootPrefix hasTsConfig).
Local Abbreviation keptHere := (kept r rootPrefix hasTsConfig).
Local Abbreviation entryOf := (fun f => (relativeOf rootPrefix f, storedInfo r rootPrefix f)).

(** Every entry was stored by a member of the archive. *)
Lemma scan_get_origin (files : list JSZipObject) (k : jsstring) (info : FileInfo) :
  forall st,
    Map_get (fileTree (fold_left step files st)) k = Some info ->
    Map_get (fileTree st) k = Some info
    \/ exists f, In f files /\ keptHere f = true
                 /\ relativeOf rootPrefix f = k /\ info = storedInfo r rootPrefix f.
Proof.
  induction files as [|f files IH]; intros st H; [now left|].
  cbn [fold_left] in H. apply IH in H. destruct H as [H|[g [Hg H]]].
  - rewrite scanStep_fileTree in H.
    destruct (kept r rootPrefix hasTsConfig f) eqn:Ek; [|now left].
    destruct (list_eq_dec N.eq_dec k (relativeOf rootPrefix f)) as [->|Hne].
    + rewrite Map_get_set_same in H. injection H as <-.
      right. exists f. repeat split; [now left|exact Ek].
    + rewrite Map_get_set_other in H by exact Hne. now left.
  - right. exists g. split; [now right|exact H].
Qed.

(** The keys of [fileTree] stay distinct. *)
Lemma scan_keys_NoDup (files : list JSZipObject) :
  forall st, NoDup (map fst (fileTree st)) ->
             NoDup (map fst (fileTree (fold_left step files st))).
Proof.
  induction files as [|f files IH]; intros st H; [exact H|].
  cbn [fold_left]. apply IH. rewrite scanStep_fileTree.
  destruct (kept r rootPrefix hasTsConfig f); [|exact H].
  rewrite Map_set_keys.
  destruct (Map_get (fileTree st) (relativeOf rootPrefix f)) eqn:G; [exact H|].
  apply Map_get_None_keys in G.
  apply NoDup_rev in H. rewrite <- (rev_involutive (_ ++ _)), rev_app_distr.
  apply NoDup_rev. cbn [rev app]. constructor; [|exact H].
  now rewrite <- in_rev.
Qed.

(** With distinct member names, [fileTree] is the list of the kept
    members, in the order of the archive. *)
Lemma scan_fileTree_in_order (files : list JSZipObject) :
  forall done st,
    NoDup (map name (done ++ files)) ->
    fileTree st = map entryOf (filter keptHere done) ->
    fileTree (fold_left step files st) = map entryOf (filter keptHere (done ++ files)).
Proof.
  induction files as [|f files IH]; intros done st Hnd Hst.
  - now rewrite app_nil_r.
  - cbn [fold_left].
    replace (done ++ f :: files) with ((done ++ [f]) ++ files) in *
      by now rewrite <- app_assoc.
    apply IH; [exact Hnd|].
    rewrite scanStep_fileTree, filter_app, map_app. cbn [filter].
    destruct (kept r rootPrefix hasTsConfig f) eqn:Ek;
      [|cbn [map]; now rewrite app_nil_r].
    rewrite Map_set_absent; [now rewrite Hst|].
    apply Map_get_None_keys. rewrite Hst, map_map. cbn [fst].
    intro Hin. apply in_map_iff in Hin. destruct Hin as [g [Hrel Hg]].
    apply filter_In in Hg. destruct Hg as [Hg Hkg].
    unfold kept in Ek, Hkg. apply andb_prop in Ek, Hkg.
    destruct Ek as [Hcf _], Hkg as [Hcg _].
    apply considered_name in Hcf, Hcg. destruct Hcf as [_ Hnf], Hcg as [_ Hng].
    rewrite map_app in Hnd. apply NoDup_app_l in Hnd.
    rewrite map_app in Hnd. cbn [map] in Hnd.
    apply NoDup_remove_2 in Hnd. apply Hnd. rewrite app_nil_r.
    apply in_map_iff. exists g. split; [|exact Hg]. congruence.
Qed.

(** The totals, member by member. *)
Lemma scan_totals (files : list JSZipObject) :
  forall st,
    originalTotalSize (fold_left step files st)
    = originalTotalSize st
      + fold_right (fun f acc => size (storedInfo r rootPrefix f) + acc) 0
          (filter keptHere files)
    /\ displayTotalSize (fold_left step files st)
       = displayTotalSize st
         + fold_right
             (fun f acc =>
                N.min (size (storedInfo r rootPrefix f)) MAX_DISPLAY_FILE_SIZE + acc) 0
             (filter keptHere files).
Proof.
  induction files as [|f files IH]; intro st; cbn [fold_left filter fold_right].
  - split; lia.
  - destruct (IH (step st f)) as [IHo IHd]. rewrite IHo, IHd. clear IHo IHd IH.
    rewrite scanStep_cases.
    assert (Hk : kept r rootPrefix hasTsConfig f
                 = considered r rootPrefix f
                   && (placeheld r rootPrefix f || negb (skipped rootPrefix hasTsConfig f)))
      by reflexivity.
    assert (Hinfo : size (storedInfo r rootPrefix f)
                    = if placeheld r rootPrefix f then 0
                      else utf8_length (async_string f)).
    { unfold storedInfo, recordOf, placeholder.
      destruct (placeheld r rootPrefix f); [reflexivity|].
      now destruct (MAX_DISPLAY_FILE_SIZE <? utf8_length (async_string f)). }
    rewrite Hk.
    destruct (considered r rootPrefix f), (placeheld r rootPrefix f),
      (skipped rootPrefix hasTsConfig f);
      cbn [negb andb orb fold_right originalTotalSize displayTotalSize];
      rewrite ?Hinfo; unfold displaySizeOf;
      try destruct (MAX_DISPLAY_FILE_SIZE <? utf8_length (async_string f)) eqn:E;
      try apply N.ltb_lt in E; try apply N.ltb_ge in E;
      unfold MAX_DISPLAY_FILE_SIZE in *; split; lia.
Qed.

End ScanFacts.

Lemma sumSizes_entries (r : Resolved) (rootPrefix : jsstring) (l : list JSZipObject) :
  sumSizes (map (fun f => (relativeOf rootPrefix f, storedInfo r rootPrefix f)) l)
  = fold_right (fun f acc => size (storedInfo r rootPrefix f) + acc) 0 l
  /\ sumDisplaySizes (map (fun f => (relativeOf rootPrefix f, storedInfo r rootPrefix f)) l)
     = fold_right
         (fun f acc => N.min (size (storedInfo r rootPrefix f)) MAX_DISPLAY_FILE_SIZE + acc)
         0 l.
Proof.
  unfold sumSizes, sumDisplaySizes.
  induction l as [|f l [IH1 IH2]]; [split; reflexivity|].
  cbn [map fold_right snd]. now rewrite IH1, IH2.
Qed.

(** X6. In an archive of distinct member names, [fileTree] lists exactly
    the members that are kept (a file under the root prefix, selected, and
    either recorded as a placeholder or let through by [shouldSkipFile]), one
    entry each, in the order of the archive: the order of the blocks under
    [# Files]. *)
Theorem fileTree_follows_archive_order
    (r : Resolved) (rootPrefix : jsstring) (files : list JSZipObject) :
  NoDup (map name files) ->
  fileTree (scan r rootPrefix files)
  = map (fun f => (relativeOf rootPrefix f, storedInfo r rootPrefix f))
      (filter (kept r rootPrefix (hasTsConfigOf rootPrefix files)) files).
Proof.
  intro Hnd. unfold scan.
  exact (scan_fileTree_in_order r rootPrefix _ files [] initialScanState Hnd eq_refl).
Qed.

(** Witness of X6: FULL mode on the sample archive with [tsconfig.json]. *)
Lemma fileTree_follows_archive_order_witness :
  fileTree (scan Sample.full Sample.rootPrefix Sample.filesTs)
  = [ (lit "README.md", mkFileInfo 3 (lit "# r") (Some false));
      (lit "src/a.ts", mkFileInfo 10 (lit "let a = 1;") (Some false));
      (lit "docs/my-readme.md", mkFileInfo 5 (lit "notes") (Some false));
      (lit "tsconfig.json", mkFileInfo 2 (lit "{}") (Some false)) ].
Proof.
  apply (fileTree_follows_archive_order Sample.full Sample.rootPrefix Sample.filesTs).
  unfold Sample.filesTs, Sample.files. simpl map. distinct_names.
Defined.

(** X7. The totals of the summary line agree with the listing: the display
    total never exceeds the original total, and in an archive of distinct
    member names the original total is the sum of the sizes of the entries
    of [fileTree] and the display total the sum of those sizes capped at
    30 KiB each. *)
Theorem totals_are_sums_over_fileTree
    (r : Resolved) (rootPrefix : jsstring) (files : list JSZipObject) :
  NoDup (map name files) ->
  let st := scan r rootPrefix files in
  displayTotalSize st <= originalTotalSize st
  /\ originalTotalSize st = sumSizes (fileTree st)
  /\ displayTotalSize st = sumDisplaySizes (fileTree st).
Proof.
  intros Hnd st. unfold st.
  assert (Htree := scan_fileTree_in_order r rootPrefix (hasTsConfigOf rootPrefix files)
                     files [] initialScanState Hnd eq_refl).
  fold (scan r rootPrefix files) in Htree. cbn [app] in Htree.
  destruct (scan_totals r rootPrefix (hasTsConfigOf rootPrefix files) files
              initialScanState) as [Ho Hd].
  fold (scan r rootPrefix files) in Ho, Hd.
  cbn [originalTotalSize displayTotalSize initialScanState] in Ho, Hd.
  destruct (sumSizes_entries r rootPrefix
              (filter (kept r rootPrefix (hasTsConfigOf rootPrefix files)) files))
    as [Hs Hsd].
  rewrite Htree, Hs, Hsd, Ho, Hd.
  split; [|split; lia].
  generalize (filter (kept r rootPrefix (hasTsConfigOf rootPrefix files)) files).
  intro l. induction l as [|f l IH]; cbn [fold_right]; lia.
Qed.

(** Witness of X7: a file of 40 KiB next to the sample archive. *)
Lemma totals_are_sums_over_fileTree_witness :
  let files := Sample.files ++ [mkZipObject (lit "r-main/big.txt") false Sample.letters] in
  let st := scan Sample.full Sample.rootPrefix files in
  displayTotalSize st <= originalTotalSize st
  /\ originalTotalSize st = sumSizes (fileTree st)
  /\ displayTotalSize st = sumDisplaySizes (fileTree st).
Proof.
  apply (totals_are_sums_over_fileTree Sample.full Sample.rootPrefix
           (Sample.files ++ [mkZipObject (lit "r-main/big.txt") false Sample.letters])).
  unfold Sample.files. simpl map. distinct_names.
Defined.

Lemma considered_facts (r : Resolved) (rootPrefix : jsstring) (f : JSZipObject) :
  considered r rootPrefix f = true ->
  dir f = false
  /\ name f = rootPrefix ++ relativeOf rootPrefix f
  /\ selected r (relativeOf rootPrefix f) = true.
Proof.
  intro H. destruct (considered_name r rootPrefix f H) as [Hd Hn].
  unfold considered in H. apply andb_prop in H. destruct H as [_ Hs]. now repeat split.
Qed.

(** X8. Nothing is stored that was not asked for: every entry of
    [fileTree] has a path the selection accepts (the single-file target, or
    the directory and extension filters), and was stored by a member of the
    archive that is a file, not a directory, named by the root prefix
    followed by that path. *)
Theorem stored_entries_are_selected_members
    (r : Resolved) (rootPrefix : jsstring) (files : list JSZipObject)
    (k : jsstring) (info : FileInfo) :
  Map_get (fileTree (scan r rootPrefix files)) k = Some info ->
  selected r k = true
  /\ exists f, In f files /\ dir f = false /\ name f = rootPrefix ++ k
               /\ info = storedInfo r rootPrefix f.
Proof.
  intro H. unfold scan in H. apply scan_get_origin in H.
  destruct H as [H|[f [Hin [Hk [Hrel Hinfo]]]]]; [discriminate|].
  unfold kept in Hk. apply andb_prop in Hk. destruct Hk as [Hc _].
  destruct (considered_facts r rootPrefix f Hc) as [Hd [Hn Hs]].
  rewrite Hrel in *. split; [exact Hs|]. now exists f.
Qed.

(** Witness of X8: [src/a.ts] under the filter [dir=src]. *)
Lemma stored_entries_are_selected_members_witness :
  let r := mkResolved (lit "o") (lit "r") (lit "main") [lit "src/"] [] None false in
  selected r (lit "src/a.ts") = true
  /\ exists f, In f Sample.files /\ dir f = false
               /\ name f = Sample.rootPrefix ++ lit "src/a.ts"
               /\ mkFileInfo 10 (lit "let a = 1;") (Some false)
                  = storedInfo r Sample.rootPrefix f.
Proof.
  exact (stored_entries_are_selected_members
           (mkResolved (lit "o") (lit "r") (lit "main") [lit "src/"] [] None false)
           Sample.rootPrefix Sample.files (lit "src/a.ts")
           (mkFileInfo 10 (lit "let a = 1;") (Some false)) eq_refl).
Defined.

(** X9. With a single-file target, [fileTree] never holds any other path,
    and holds at most one entry, whatever the archive lists. *)
Theorem single_file_mode_stores_only_the_target
    (r : Resolved) (rootPrefix t : jsstring) (files : list JSZipObject) :
  targetFile r = Some t -> truthy t = true ->
  (forall k info, Map_get (fileTree (scan r rootPrefix files)) k = Some info -> k = t)
  /\ (List.length (fileTree (scan r rootPrefix files)) <= 1)%nat.
Proof.
  intros Ht Htr.
  assert (Hkeys : forall k info,
             Map_get (fileTree (scan r rootPrefix files)) k = Some info -> k = t).
  { intros k info H. unfold scan in H. apply scan_get_origin in H.
    destruct H as [H|[f [_ [Hk [Hrel _]]]]]; [discriminate|].
    unfold kept in Hk. apply andb_prop in Hk. destruct Hk as [Hc _].
    destruct (considered_facts r rootPrefix f Hc) as [_ [_ Hs]].
    rewrite (selected_single r t _ Ht Htr) in Hs. apply jsstring_eqb_eq in Hs. congruence. }
  split; [exact Hkeys|].
  assert (Hnd : NoDup (map fst (fileTree (scan r rootPrefix files))))
    by (apply scan_keys_NoDup; constructor).
  assert (Hall : forall k, In k (map fst (fileTree (scan r rootPrefix files))) -> k = t).
  { intros k Hin.
    destruct (Map_get (fileTree (scan r rootPrefix files)) k) as [info|] eqn:G;
      [now apply (Hkeys k info)|].
    now apply Map_get_None_keys in G. }
  rewrite <- (length_map fst).
  destruct (map fst (fileTree (scan r rootPrefix files))) as [|k1 [|k2 ks]];
    cbn [List.length]; try lia.
  inversion Hnd as [|? ? Hk1 _]; subst. elim Hk1.
  rewrite (Hall k1) by now left. rewrite (Hall k2) by (right; now left). now left.
Qed.

(** Witness of X9: the target [src/a.ts] in the sample archive. *)
Lemma single_file_mode_stores_only_the_target_witness :
  (forall k info,
      Map_get (fileTree (scan (Sample.single "src/a.ts" false) Sample.rootPrefix Sample.files)) k
      = Some info -> k = lit "src/a.ts")
  /\ (List.length
        (fileTree (scan (Sample.single "src/a.ts" false) Sample.rootPrefix Sample.files))
      <= 1)%nat.
Proof.
  exact (single_file_mode_stores_only_the_target (Sample.single "src/a.ts" false)
           Sample.rootPrefix (lit "src/a.ts") Sample.files eq_refl eq_refl).
Defined.

Lemma shouldSkipFile_false (filename : jsstring) (size : N) (content : option jsstring)
    (hasTsConfig : bool) :
  shouldSkipFile filename size content hasTsConfig = false ->
  excludedByName filename = false
  /\ hasTsConfig && (endsWith filename (lit ".js") || endsWith filename (lit ".mjs")) = false
  /\ size <= MAX_FILE_SIZE
  /\ match content with
     | Some c => truthy c && isBinaryContent c = false
     | None => True
     end.
Proof.
  unfold shouldSkipFile, excludedByName.
  destruct (matchesLock filename); [discriminate|]. cbn [orb].
  destruct (has imageExtensions _ || has binaryExtensions _); [discriminate|].
  destruct (hasTsConfig && _); [discriminate|].
  destruct (MAX_FILE_SIZE <? size) eqn:E; [discriminate|]. apply N.ltb_ge in E.
  destruct content as [c|]; [|now repeat split].
  destruct (truthy c && isBinaryContent c); [discriminate|]. now repeat split.
Qed.

Lemma shouldSkipFile_excludedByName (filename : jsstring) (size : N)
    (content : option jsstring) (hasTsConfig : bool) :
  excludedByName filename = true ->
  shouldSkipFile filename size content hasTsConfig = true.
Proof.
  intro H.
  destruct (shouldSkipFile filename size content hasTsConfig) eqn:E; [reflexivity|].
  apply shouldSkipFile_false in E. destruct E as [E _]. congruence.
Qed.

(** X10. What an entry of [fileTree] can be. Its size is at most 500 KiB;
    it is marked truncated exactly when its size is above 30 KiB; an entry
    not marked truncated holds a content of exactly that many UTF-8 bytes;
    and an entry with no mark at all is the empty placeholder of TREE mode,
    at a path that does not end in [readme.md]. *)
Theorem stored_entry_shape
    (r : Resolved) (rootPrefix : jsstring) (files : list JSZipObject)
    (k : jsstring) (info : FileInfo) :
  Map_get (fileTree (scan r rootPrefix files)) k = Some info ->
  size info <= MAX_FILE_SIZE
  /\ (isTruncated info = Some true <-> MAX_DISPLAY_FILE_SIZE < size info)
  /\ (isTruncated info = Some false -> utf8_length (content info) = size info)
  /\ (isTruncated info = None ->
      info = mkFileInfo 0 [] None /\ isTreeMode r = true /\ isReadme k = false).
Proof.
  intro H. unfold scan in H. apply scan_get_origin in H.
  destruct H as [H|[f [_ [Hk [Hrel ->]]]]]; [discriminate|].
  unfold kept in Hk. apply andb_prop in Hk. destruct Hk as [_ Hk].
  unfold storedInfo.
  destruct (placeheld r rootPrefix f) eqn:Hp.
  - unfold placeholder. cbn [size isTruncated content].
    unfold placeheld in Hp. apply andb_prop in Hp. destruct Hp as [Htree Hnr].
    rewrite Hrel in Hnr. apply negb_true_iff in Hnr.
    unfold MAX_FILE_SIZE, MAX_DISPLAY_FILE_SIZE.
    split; [lia|]. split; [split; [discriminate|lia]|]. split; [discriminate|].
    now intros _.
  - cbn [orb] in Hk. apply negb_true_iff in Hk. unfold skipped in Hk.
    apply shouldSkipFile_false in Hk. destruct Hk as [_ [_ [Hsize _]]].
    unfold recordOf.
    destruct (MAX_DISPLAY_FILE_SIZE <? utf8_length (async_string f)) eqn:E;
      cbn [size isTruncated content];
      [apply N.ltb_lt in E|apply N.ltb_ge in E].
    + split; [exact Hsize|]. split; [tauto|]. split; discriminate.
    + split; [exact Hsize|]. split; [split; [discriminate|lia]|].
      split; [reflexivity|discriminate].
Qed.

(** Witness of X10: the entry of [README.md] in FULL mode. *)
Lemma stored_entry_shape_witness :
  size (mkFileInfo 3 (lit "# r") (Some false)) <= MAX_FILE_SIZE
  /\ (isTruncated (mkFileInfo 3 (lit "# r") (Some false)) = Some true
      <-> MAX_DISPLAY_FILE_SIZE < size (mkFileInfo 3 (lit "# r") (Some false)))
  /\ (isTruncated (mkFileInfo 3 (lit "# r") (Some false)) = Some false ->
      utf8_length (content (mkFileInfo 3 (lit "# r") (Some false)))
      = size (mkFileInfo 3 (lit "# r") (Some false)))
  /\ (isTruncated (mkFileInfo 3 (lit "# r") (Some false)) = None ->
      mkFileInfo 3 (lit "# r") (Some false) = mkFileInfo 0 [] None
      /\ isTreeMode Sample.full = true /\ isReadme (lit "README.md") = false).
Proof.
  exact (stored_entry_shape Sample.full Sample.rootPrefix Sample.files (lit "README.md")
           (mkFileInfo 3 (lit "# r") (Some false)) eq_refl).
Defined.

(** X11. A lock file ([-lock.] in the name, or a name ending in [.lock])
    and a file with an image or binary extension never show a content,
    whatever the filters, the size and the content: FULL mode stores nothing
    at such a path, and the only entry TREE mode can hold there is the empty
    placeholder. *)
Theorem excluded_names_never_show_content
    (r : Resolved) (rootPrefix : jsstring) (files : list JSZipObject) (k : jsstring) :
  excludedByName k = true ->
  (isTreeMode r = false -> Map_get (fileTree (scan r rootPrefix files)) k = None)
  /\ (forall info, Map_get (fileTree (scan r rootPrefix files)) k = Some info ->
                   info = mkFileInfo 0 [] None).
Proof.
  intro Hex.
  assert (Hinfo : forall info,
             Map_get (fileTree (scan r rootPrefix files)) k = Some info ->
             info = mkFileInfo 0 [] None /\ isTreeMode r = true).
  { intros info H. unfold scan in H. apply scan_get_origin in H.
    destruct H as [H|[f [_ [Hk [Hrel ->]]]]]; [discriminate|].
    unfold kept in Hk. apply andb_prop in Hk. destruct Hk as [_ Hk].
    unfold storedInfo.
    destruct (placeheld r rootPrefix f) eqn:Hp.
    - unfold placeheld in Hp. apply andb_prop in Hp. now destruct Hp.
    - cbn [orb] in Hk. unfold skipped in Hk.
      rewrite Hrel, shouldSkipFile_excludedByName in Hk by exact Hex. discriminate. }
  split.
  - intro Hfull.
    destruct (Map_get (fileTree (scan r rootPrefix files)) k) as [info|] eqn:G;
      [|reflexivity].
    destruct (Hinfo info eq_refl) as [_ Ht]. congruence.
  - intros info H. now apply Hinfo.
Qed.

(** Witness of X11: [pnpm-lock.yaml] of the sample archive. *)
Lemma excluded_names_never_show_content_witness :
  (isTreeMode Sample.full = false ->
   Map_get (fileTree (scan Sample.full Sample.rootPrefix Sample.files)) (lit "pnpm-lock.yaml")
   = None)
  /\ (forall info,
         Map_get (fileTree (scan Sample.full Sample.rootPrefix Sample.files))
           (lit "pnpm-lock.yaml") = Some info ->
         info = mkFileInfo 0 [] None).
Proof.
  exact (excluded_names_never_show_content Sample.full Sample.rootPrefix Sample.files
           (lit "pnpm-lock.yaml") eq_refl).
Defined.


(* ================================================================== *)
(** ** The binary-content test and ordinary text *)

Lemma isBinaryContent_counts (content : jsstring) :
  isBinaryContent content
  = (N.of_nat (List.length (BinaryContent.sample content))
     <? 20 * N.of_nat (BinaryContent.controlCount content)).
Proof.
  unfold isBinaryContent.
  rewrite countNonPrintable_spec, <- sample_length.
  pose proof (controlCount_le content) as Hle.
  pose proof (sample_length content) as Hlen.
  assert (Hs : (List.length (BinaryContent.sample content) <= 1000)%nat)
    by (rewrite Hlen; unfold sampleSizeOf; lia).
  change (PrimFloat.ltb 0.05 (PrimFloat.div ?a ?b))
    with (BinaryContent.exceeds (N.of_nat (BinaryContent.controlCount content))
            (N.of_nat (List.length (BinaryContent.sample content)))).
  apply exceeds_spec; lia.
Qed.

Lemma sample_firstn (content : jsstring) :
  BinaryContent.sample content = firstn 1000 content.
Proof.
  unfold BinaryContent.sample.
  destruct (Nat.le_gt_cases (List.length content) 1000) as [H|H].
  - rewrite Nat.min_l by exact H. now rewrite !firstn_all2.
  - now rewrite Nat.min_r by lia.
Qed.

(** X13. Only the first 1000 code units of a content decide whether it
    is binary: the answer for a content is the answer for its first 1000
    code units, so two contents that agree there get the same answer. *)
Theorem isBinaryContent_reads_the_first_1000 (content : jsstring) :
  isBinaryContent content = isBinaryContent (firstn 1000 content)
  /\ forall other,
      firstn 1000 other = firstn 1000 content ->
      isBinaryContent other = isBinaryContent content.
Proof.
  assert (H : forall c, isBinaryContent c = isBinaryContent (firstn 1000 c)).
  { intro c. rewrite !isBinaryContent_counts. unfold BinaryContent.controlCount.
    rewrite !sample_firstn. now rewrite firstn_firstn, Nat.min_id. }
  split; [apply H|].
  intros other E. now rewrite (H other), E, <- H.
Qed.

Lemma filter_none_Forall {A} (p : A -> bool) (l : list A) :
  Forall (fun x => p x = false) l -> filter p l = [].
Proof.
  induction 1 as [|x l Hx _ IH]; cbn [filter]; [reflexivity|]. now rewrite Hx.
Qed.

(** X14. Ordinary text is never dropped. A file whose name is no lock
    file and has no image or binary extension, that is no [.js] or [.mjs]
    file of a TypeScript project, of at most 500 KiB, and whose first 1000
    code units hold no control character other than tab, newline and
    carriage return, passes [shouldSkipFile]. *)
Theorem ordinary_text_is_not_skipped
    (filename content : jsstring) (hasTsConfig : bool) :
  excludedByName filename = false ->
  hasTsConfig && (endsWith filename (lit ".js") || endsWith filename (lit ".mjs")) = false ->
  utf8_length content <= MAX_FILE_SIZE ->
  Forall (fun c => BinaryContent.isControl c = false) (firstn 1000 content) ->
  isBinaryContent content = false
  /\ shouldSkipFile filename (utf8_length content) (Some content) hasTsConfig = false.
Proof.
  intros Hname Hjs Hsize Htext.
  assert (Hbin : isBinaryContent content = false).
  { rewrite isBinaryContent_counts. unfold BinaryContent.controlCount.
    rewrite sample_firstn, (filter_none_Forall _ _ Htext).
    apply N.ltb_ge. cbn [List.length]. lia. }
  split; [exact Hbin|].
  unfold shouldSkipFile. unfold excludedByName in Hname.
  destruct (matchesLock filename); [discriminate|]. cbn [orb] in Hname.
  rewrite Hname, Hjs, Hbin, andb_false_r.
  apply N.ltb_ge in Hsize. now rewrite Hsize.
Qed.

(** Witness of X14: [src/a.ts] of the sample archive. *)
Lemma ordinary_text_is_not_skipped_witness :
  isBinaryContent (lit "let a = 1;") = false
  /\ shouldSkipFile (lit "src/a.ts") (utf8_length (lit "let a = 1;"))
       (Some (lit "let a = 1;")) true = false.
Proof.
  apply (ordinary_text_is_not_skipped (lit "src/a.ts") (lit "let a = 1;") true).
  - reflexivity.
  - reflexivity.
  - vm_compute. discriminate.
  - repeat constructor.
Defined.

(* ================================================================== *)
(** ** The listing of [createTreeDisplay] *)

Lemma split_not_nil (sep : code_unit) (s : jsstring) : split sep s <> [].
Proof.
  destruct s as [|c s]; cbn [split]; [discriminate|].
  destruct (c =? sep); [discriminate|]. destruct (split sep s); discriminate.
Qed.

(** Splitting at a separator and joining with it gives the string back. *)
Lemma join_split (sep : code_unit) (s : jsstring) : join [sep] (split sep s) = s.
Proof.
  induction s as [|c s IH]; [reflexivity|].
  cbn [split]. pose proof (split_not_nil sep s) as Hne.
  destruct (c =? sep) eqn:E.
  - apply N.eqb_eq in E. subst c.
    destruct (split sep s) as [|w ws]; [congruence|].
    change (join [sep] ([] :: w :: ws)) with ([] ++ [sep] ++ join [sep] (w :: ws)).
    now rewrite IH.
  - destruct (split sep s) as [|w ws]; [congruence|].
    rewrite <- IH. destruct ws as [|w' ws]; reflexivity.
Qed.

Lemma join_app (sep : jsstring) (l1 l2 : list jsstring) :
  l1 <> [] -> l2 <> [] ->
  join sep (l1 ++ l2) = join sep l1 ++ sep ++ join sep l2.
Proof.
  intros H1 H2. induction l1 as [|p l1 IH]; [congruence|].
  destruct l1 as [|q l1].
  - destruct l2 as [|r l2]; [congruence|]. reflexivity.
  - change (p ++ sep ++ join sep ((q :: l1) ++ l2)
            = (p ++ sep ++ join sep (q :: l1)) ++ sep ++ join sep l2).
    rewrite IH by discriminate. now rewrite <- !app_assoc.
Qed.

(** The prefixes of a path: the path itself, and strings that the path
    continues with a slash. *)
Lemma prefixesOf_spec (path d : jsstring) :
  In d (prefixesOf path) -> d = path \/ exists rest, path = d ++ lit "/" ++ rest.
Proof.
  unfold prefixesOf. intro H. apply in_map_iff in H. destruct H as [i [<- Hi]].
  apply in_seq in Hi.
  set (parts := split 47 path) in *.
  assert (Hpath : join (lit "/") parts = path) by apply join_split.
  clearbody parts. subst path.
  pose proof (firstn_skipn i parts) as Hparts.
  destruct (skipn i parts) as [|p ps].
  - left. rewrite app_nil_r in Hparts. now rewrite Hparts.
  - right. exists (join (lit "/") (p :: ps)).
    rewrite <- Hparts at 1.
    apply join_app; [|discriminate].
    destruct parts as [|q parts]; [cbn in Hi; lia|].
    destruct i; [lia|discriminate].
Qed.

Lemma prefixesOf_self (path : jsstring) : In path (prefixesOf path).
Proof.
  unfold prefixesOf. apply in_map_iff. exists (List.length (split 47 path)).
  split; [rewrite firstn_all; apply join_split|].
  apply in_seq. pose proof (split_not_nil 47 path).
  destruct (split 47 path); [congruence|]. cbn [List.length]. lia.
Qed.

Lemma existsb_eqb_In (x : jsstring) (s : list jsstring) :
  existsb (jsstring_eqb x) s = true <-> In x s.
Proof.
  rewrite existsb_exists. split.
  - intros [y [Hy E]]. apply jsstring_eqb_eq in E. now subst.
  - intro H. exists x. split; [exact H|apply jsstring_eqb_refl].
Qed.

Lemma Set_add_In (s : list jsstring) (x y : jsstring) :
  In y (Set_add s x) <-> In y s \/ y = x.
Proof.
  unfold Set_add. destruct (existsb (jsstring_eqb x) s) eqn:E.
  - apply existsb_eqb_In in E. split; [now left|]. intros [H| ->]; assumption.
  - rewrite in_app_iff. cbn [In]. intuition congruence.
Qed.

Lemma Set_add_NoDup (s : list jsstring) (x : jsstring) :
  NoDup s -> NoDup (Set_add s x).
Proof.
  intro H. unfold Set_add. destruct (existsb (jsstring_eqb x) s) eqn:E; [exact H|].
  apply NoDup_rev in H. rewrite <- (rev_involutive (s ++ [x])), rev_app_distr.
  apply NoDup_rev. cbn [rev app]. constructor; [|exact H].
  rewrite <- in_rev. intro Hin. apply existsb_eqb_In in Hin. congruence.
Qed.

Lemma Set_add_all (xs : list jsstring) :
  forall s, (NoDup s -> NoDup (fold_left Set_add xs s))
            /\ forall y, In y (fold_left Set_add xs s) <-> In y s \/ In y xs.
Proof.
  induction xs as [|x xs IH]; intro s; cbn [fold_left In]; [tauto|].
  destruct (IH (Set_add s x)) as [IHn IHi]. split.
  - intro H. apply IHn. now apply Set_add_NoDup.
  - intro y. rewrite IHi, Set_add_In. intuition congruence.
Qed.

Lemma collectDirs_spec (m : Map FileInfo) :
  NoDup (collectDirs m)
  /\ forall d, In d (collectDirs m) <-> exists k v, In (k, v) m /\ In d (prefixesOf k).
Proof.
  unfold collectDirs.
  assert (H : forall s,
             (NoDup s ->
              NoDup (fold_left (fun dirs kv => fold_left Set_add (prefixesOf (fst kv)) dirs)
                       m s))
             /\ forall d,
                 In d (fold_left (fun dirs kv => fold_left Set_add (prefixesOf (fst kv)) dirs)
                         m s)
                 <-> In d s \/ exists k v, In (k, v) m /\ In d (prefixesOf k)).
  { induction m as [|[k v] m IH]; intro s; cbn [fold_left fst].
    - split; [tauto|]. intro d. split; [now left|].
      intros [H|[k [v [[] _]]]]. exact H.
    - destruct (IH (fold_left Set_add (prefixesOf k) s)) as [IHn IHi].
      destruct (Set_add_all (prefixesOf k) s) as [Hn Hi]. split.
      + intro H. apply IHn. now apply Hn.
      + intro d. rewrite IHi, Hi. split.
        * intros [[H|H]|[k' [v' [Hin Hd]]]]; [now left| |].
          -- right. exists k, v. split; [now left|exact H].
          -- right. exists k', v'. split; [now right|exact Hd].
        * intros [H|[k' [v' [[E|Hin] Hd]]]]; [left; now left| |].
          -- injection E as <- <-. left. now right.
          -- right. now exists k', v'. }
  destruct (H []) as [Hn Hi]. split; [apply Hn; constructor|].
  intro d. rewrite Hi. cbn [In]. tauto.
Qed.

Lemma leb_total (a b : jsstring) : leb a b = false -> leb b a = true.
Proof.
  revert b. induction a as [|x a IH]; intros [|y b]; cbn [leb]; try discriminate;
    try reflexivity.
  intro H. apply orb_false_elim in H. destruct H as [Hlt H].
  apply N.ltb_ge in Hlt.
  destruct (y <? x) eqn:E; [reflexivity|]. apply N.ltb_ge in E. cbn [orb].
  assert (x = y) by lia. subst y. rewrite N.eqb_refl in *. cbn [andb] in *.
  now apply IH.
Qed.

Lemma insert_sorted_spec (x : jsstring) (l : list jsstring) :
  (forall y, In y (insert_sorted x l) <-> y = x \/ In y l)
  /\ (NoDup l -> ~ In x l -> NoDup (insert_sorted x l))
  /\ (Sorted (fun a b => leb a b = true) l ->
      Sorted (fun a b => leb a b = true) (insert_sorted x l)).
Proof.
  induction l as [|z l [IHi [IHn IHs]]]; cbn [insert_sorted].
  - split; [intro y; cbn [In]; intuition congruence|].
    split; [intros _ _; constructor; [intros []|constructor]|].
    intros _. constructor; constructor.
  - destruct (leb x z) eqn:E.
    + split; [intro y; cbn [In]; intuition congruence|].
      split; [intros Hnd Hx; now constructor|].
      intro Hs. constructor; [exact Hs|]. now constructor.
    + split; [intro y; cbn [In]; rewrite IHi; cbn [In]; intuition congruence|].
      split.
      * intros Hnd Hx. inversion Hnd as [|? ? Hz Hnd']; subst.
        constructor; [|apply IHn; [exact Hnd'|intro H; apply Hx; now right]].
        rewrite IHi. intros [-> |H]; [apply Hx; now left|now apply Hz].
      * intro Hs. inversion Hs as [|? ? Hs' Hhd]; subst.
        constructor; [now apply IHs|].
        destruct l as [|w l]; cbn [insert_sorted].
        -- constructor. now apply leb_total.
        -- destruct (leb x w); constructor; [now apply leb_total|].
           now inversion Hhd.
Qed.

Lemma sort_spec (l : list jsstring) :
  (forall y, In y (sort l) <-> In y l)
  /\ (NoDup l -> NoDup (sort l))
  /\ Sorted (fun a b => leb a b = true) (sort l).
Proof.
  unfold sort. induction l as [|x l [IHi [IHn IHs]]]; cbn [fold_right].
  - split; [tauto|]. split; [trivial|constructor].
  - destruct (insert_sorted_spec x (fold_right insert_sorted [] l)) as [Hi [Hn Hs]].
    split; [intro y; rewrite Hi, IHi; cbn [In]; intuition congruence|].
    split; [|now apply Hs].
    intro Hnd. inversion Hnd as [|? ? Hx Hnd']; subst.
    apply Hn; [now apply IHn|]. now rewrite IHi.
Qed.

(** X15. The listing has one line for each stored path and for each
    directory above one, and for nothing else: the paths listed are
    distinct, in the order of their code units, every stored path is among
    them, and every path listed is a stored path or is continued by a slash
    into one. *)
Theorem tree_lists_every_path_once (fileTree : Map FileInfo) (showSize : bool) :
  let listed := sort (collectDirs fileTree) in
  createTreeDisplay fileTree showSize
  = List.concat (map (treeLine fileTree showSize (collectDirs fileTree)) listed)
  /\ NoDup listed
  /\ Sorted (fun a b => leb a b = true) listed
  /\ (forall k v, In (k, v) fileTree -> In k listed)
  /\ (forall d, In d listed ->
        exists k v, In (k, v) fileTree
                    /\ (d = k \/ exists rest, k = d ++ lit "/" ++ rest)).
Proof.
  intro listed. unfold listed.
  destruct (collectDirs_spec fileTree) as [Hnd Hin].
  destruct (sort_spec (collectDirs fileTree)) as [Hsi [Hsn Hss]].
  split; [reflexivity|]. split; [now apply Hsn|]. split; [exact Hss|]. split.
  - intros k v Hk. rewrite Hsi, Hin. exists k, v. split; [exact Hk|apply prefixesOf_self].
  - intros d Hd. rewrite Hsi, Hin in Hd. destruct Hd as [k [v [Hk Hd]]].
    exists k, v. split; [exact Hk|]. now apply prefixesOf_spec.
Qed.

(* ================================================================== *)
(** ** The ways a call fails *)



(* ================================================================== *)
(** ** The browser route and the MCP tool *)

(** The headers of every request of a call: [User-Agent], and the bearer
    token when one is given and is not empty. *)
Lemma requests_headers (P : Platform) (params : Params) (token : option jsstring) :
  Forall (fun q => req_headers q
                   = (lit "User-Agent", lit "Pera1-Bot")
                     :: match token with
                        | Some t =>
                            if truthy t then [(lit "Authorization", lit "Bearer " ++ t)]
                            else []
                        | None => []
                        end)
         (requests (processGitHubRepository P params token)).
Proof.
  destruct (resolve P params) as [e|r] eqn:Hr.
  - unfold processGitHubRepository. rewrite Hr. constructor.
  - rewrite (requests_of_process P params token r Hr).
    destruct (fetchWithFallback_run P (owner r) (repo r) (branch r) token)
      as [tried [rest [_ [Hsent _]]]].
    rewrite Hsent. apply Forall_map'. apply Forall_forall. intros b _.
    unfold zipRequest. cbn [req_headers].
    destruct token as [t|]; [|reflexivity]. now destruct (truthy t).
Qed.

(** X17. The browser route never sends a credential: every request it
    causes carries the [User-Agent] header and nothing else. *)
Theorem browser_route_sends_no_credentials (P : Platform) (req : WebRequest) :
  Forall (fun q => req_headers q = [(lit "User-Agent", lit "Pera1-Bot")])
         (snd (webHandler P req)).
Proof.
  unfold webHandler.
  destruct (negb (truthy (slice_from 1 (web_pathname req)))); [constructor|].
  pose proof (requests_headers P (webArgs (slice_from 1 (web_pathname req)) req) None) as H.
  destruct (result (processGitHubRepository P _ None)); exact H.
Qed.

(** X18. The prefix the browser route puts before a path without [http]
    changes nothing: the pipeline does the same to its argument, so the
    outcome for the arguments of the route is the outcome for the bare path. *)
Theorem browser_route_prefix_is_harmless
    (P : Platform) (path : jsstring) (req : WebRequest) (token : option jsstring) :
  processGitHubRepository P (webArgs path req) token
  = processGitHubRepository P
      (mkParams path (web_dir req) (web_ext req) (web_branch req) (web_file req)
         (web_mode req))
      token.
Proof.
  assert (H : resolve P (webArgs path req)
              = resolve P (mkParams path (web_dir req) (web_ext req) (web_branch req)
                             (web_file req) (web_mode req))).
  { unfold resolve, webArgs. cbn [param_url param_dir param_ext param_branch param_file
                                  param_mode].
    destruct (startsWith path (lit "http")) eqn:E; cbv iota.
    - now rewrite E.
    - replace (startsWith (lit "https://" ++ path) (lit "http")) with true by reflexivity.
      reflexivity. }
  unfold processGitHubRepository. now rewrite H.
Qed.

(** X19. When the repository cannot be fetched the browser route answers
    with the status of the first upstream answer, mapped: 403 for 401 and
    403, 404 for 404, and 500 otherwise; the page carries the message of the
    error after [Request error: ], or [Unexpected error: ] for a 500. *)
Theorem browser_route_maps_the_first_upstream_status
    (P : Platform) (req : WebRequest) (r : Resolved) :
  let path := slice_from 1 (web_pathname req) in
  let first := fetch P (zipRequest (owner r) (repo r) (branch r) None) in
  let mapped :=
    if (status first =? 401) || (status first =? 403) then 403
    else if status first =? 404 then 404 else 500 in
  truthy path = true ->
  resolve P (webArgs path req) = inr r ->
  (forall b, In b (branch r :: defaultBranches) ->
             ok (fetch P (zipRequest (owner r) (repo r) b None)) = false) ->
  fst (webHandler P req)
  = ErrorPage path
      ((if mapped =? 500 then lit "Unexpected error" else lit "Request error")
       ++ lit ": " ++ lit "Failed to fetch repository: " ++ of_N (status first)
       ++ lit " " ++ statusText first)
      mapped.
Proof.
  intros path first st Hpath Hr Hall.
  pose proof (fetchWithFallback_run P (owner r) (repo r) (branch r) None) as Hrun.
  cbv zeta in Hrun. destruct Hrun as [tried [rest [Hsplit [_ [_ Hlast]]]]].
  assert (Hf : fst (fetchWithFallback P (owner r) (repo r) (branch r) None)
               = inl (GitHubFetchError (status first) (statusText first))).
  { destruct (fst (fetchWithFallback P (owner r) (repo r) (branch r) None))
      as [e|[b' resp]]; [now destruct Hlast as [-> _]|].
    destruct Hlast as [Hb' [Hresp Hok]]. subst resp.
    rewrite Hall in Hok; [discriminate|].
    rewrite Hb'.
    assert (Hin : In (last (branch r :: tried) (branch r)) (branch r :: tried))
      by apply last_In'.
    destruct Hin as [<-|Hin]; [now left|]. right.
    assert (Hin' : In (last (branch r :: tried) (branch r))
                     (filter (fun d => negb (jsstring_eqb (branch r) d)) defaultBranches))
      by (rewrite Hsplit; apply in_or_app; now left).
    now apply filter_In in Hin'. }
  unfold webHandler. fold path. rewrite Hpath. cbn [negb].
  unfold processGitHubRepository. rewrite Hr.
  destruct (fetchWithFallback P (owner r) (repo r) (branch r) None) as [[e|[b' resp]] sent];
    cbn [fst] in Hf; [|discriminate].
  injection Hf as ->. reflexivity.
Qed.

(** Witness of X19: the first branch is forbidden, the others are missing. *)
Lemma browser_route_maps_the_first_upstream_status_witness :
  let P := Demo.platform [(Demo.zipUrl "o" "r" "main", mkResponse 403 (lit "Forbidden") [])] in
  let req := mkWebRequest (lit "/github.com/o/r") None None None None None in
  fst (webHandler P req)
  = ErrorPage (lit "github.com/o/r")
      (lit "Request error: Failed to fetch repository: 403 Forbidden") 403.
Proof.
  intros P req.
  refine (browser_route_maps_the_first_upstream_status P req Sample.full
            eq_refl eq_refl _).
  intros b [<-|[<-|[<-|[]]]]; reflexivity.
Defined.



(** X21. The requests of the tool carry [Authorization: Bearer t] exactly
    when [getAuthProps] is given and answers with a token [t] that is not
    empty. The tool of [McpApiHandler], built with no [getAuthProps], sends
    no request with a credential. *)
Theorem tool_sends_the_token_only_when_props_give_one
    (P : Platform) (getAuthProps : option (option jsstring)) (args : option ToolArgs) :
  Forall (fun q => req_headers q
                   = (lit "User-Agent", lit "Pera1-Bot")
                     :: match getAuthProps with
                        | Some (Some t) =>
                            if truthy t then [(lit "Authorization", lit "Bearer " ++ t)]
                            else []
                        | _ => []
                        end)
         (snd (toolHandler P getAuthProps args))
  /\ Forall (fun q => req_headers q = [(lit "User-Agent", lit "Pera1-Bot")])
            (snd (McpApiHandler_tool P args)).
Proof.
  assert (H : forall g,
             Forall (fun q => req_headers q
                              = (lit "User-Agent", lit "Pera1-Bot")
                                :: match githubTokenOf g with
                                   | Some t =>
                                       if truthy t
                                       then [(lit "Authorization", lit "Bearer " ++ t)]
                                       else []
                                   | None => []
                                   end)
                    (snd (toolHandler P g args))).
  { intros g. unfold toolHandler.
    destruct args as [a|]; [|constructor].
    destruct (arg_url a) as [url|]; [|constructor].
    destruct (negb (truthy url)); [constructor|].
    destruct (negb (truthy (trim url))); [constructor|].
    pose proof (requests_headers P
                  (mkParams url (arg_dir a) (arg_ext a) (arg_branch a) (arg_file a)
                     (arg_mode a))
                  (githubTokenOf g)) as Hq.
    destruct (result (processGitHubRepository P _ (githubTokenOf g))); exact Hq. }
  split.
  - specialize (H getAuthProps). destruct getAuthProps as [[t|]|]; exact H.
  - exact (H None).
Qed.

(* ================================================================== *)
(** ** The extension filter and the root of the archive *)






Lemma scan_outside_root (r : Resolved) (rootPrefix : jsstring) (hasTsConfig : bool)
    (files : list JSZipObject) (st : ScanState) :
  Forall (fun f => startsWith (name f) rootPrefix = false) files ->
  fold_left (scanStep r rootPrefix hasTsConfig) files st = st.
Proof.
  intros H. revert st. induction H as [|f files Hf _ IH]; intros st; [reflexivity|].
  cbn [fold_left]. rewrite <- (IH st) at 2. f_equal.
  unfold scanStep. rewrite Hf. now destruct (dir f).
Qed.

(** X23. An archive none of whose members lies under [repo-branch/], the
    root the code expects for the branch that answered, is no error: no
    member is read and the result is the listing of no file at all, or
    [File not found] when a single file is asked for. *)
Theorem archive_under_another_root_lists_nothing
    (P : Platform) (params : Params) (token : option jsstring)
    (r : Resolved) (b : jsstring) (resp : Response (ArrayBuffer P))
    (sent : list Request) (files : list JSZipObject) :
  resolve P params = inr r ->
  fetchWithFallback P (owner r) (repo r) (branch r) token = (inr (b, resp), sent) ->
  JSZip_loadAsync P (body resp) = inr files ->
  Forall (fun f => startsWith (name f) (repo r ++ lit "-" ++ b ++ lit "/") = false) files ->
  let listing :=
    if isTreeMode r then lit "# Directory Structure" ++ [10; 10]
    else lit "# " ++ folderClosed ++ lit " File Tree" ++ [10; 10; 10]
         ++ lit "# " ++ memo ++ lit " Files (Total: 0.00 KB" ++ arrow ++ lit "0.00 KB)"
         ++ [10; 10] in
  membersRead (processGitHubRepository P params token) = []
  /\ result (processGitHubRepository P params token)
     = match targetFile r with
       | Some t => if truthy t then inl (Error (lit "File not found: " ++ t)) else inr listing
       | None => inr listing
       end.
Proof.
  intros Hr Hf Hz Hout listing.
  unfold processGitHubRepository. rewrite Hr, Hf, Hz.
  unfold scan, rootPrefixOf. rewrite (scan_outside_root _ _ _ _ _ Hout).
  split; [reflexivity|].
  cbn [result]. unfold render, truthy_opt, listing.
  destruct (targetFile r) as [t|].
  - destruct (truthy t); [reflexivity|]. now destruct (isTreeMode r).
  - now destruct (isTreeMode r).
Qed.

(** Witness of X23: the archive of the branch [feature/x] has the root
    [r-feature-x/], not [r-feature/x/]. *)
Lemma archive_under_another_root_lists_nothing_witness :
  let P := Demo.platform
             [(Demo.zipUrl "o" "r" "feature/x",
               Demo.okResponse [Demo.folder "r-feature-x/";
                                Demo.file "r-feature-x/a.ts" "let a = 1;"])] in
  let params := mkParams (lit "github.com/o/r") None None (Some (lit "feature/x")) None None in
  membersRead (processGitHubRepository P params None) = []
  /\ result (processGitHubRepository P params None)
     = inr (lit "# " ++ folderClosed ++ lit " File Tree" ++ [10; 10; 10]
            ++ lit "# " ++ memo ++ lit " Files (Total: 0.00 KB" ++ arrow ++ lit "0.00 KB)"
            ++ [10; 10]).
Proof.
  intros P params.
  refine (archive_under_another_root_lists_nothing P params None
            (mkResolved (lit "o") (lit "r") (lit "feature/x") [] [] None false)
            (lit "feature/x")
            (Demo.okResponse [Demo.folder "r-feature-x/";
                              Demo.file "r-feature-x/a.ts" "let a = 1;"])
            [zipRequest (lit "o") (lit "r") (lit "feature/x") None]
            _ eq_refl eq_refl eq_refl _).
  repeat constructor.
Defined.
